(** * opml2txt: OPML to feedlist.txt converter

    A shallow embedding of [src/opml2txt.py] and the properties of its
    pipeline: resolve inputs, extract feeds, aggregate with first-seen-wins
    deduplication, format and write.

    Python strings are modelled as [string] (their UTF-8 bytes), the
    attribute dictionary of an XML element as a [gmap], the [seen_urls] set
    as a [gset], and the side effects (printing, the output file, raised
    exceptions) by a small state-and-exception monad.  The functions are
    given first for an environment whose existence checks answer; module
    [Strict] repeats the loop over the files and its callers for an
    existence check that can raise. *)

From Stdlib Require Import String Ascii List.
From stdpp Require Import base option gmap strings list pretty.

Open Scope string_scope.
Open Scope list_scope.

(** ** Python string primitives used by the program *)

Module Py.

Definition LF : string := String "010"%char EmptyString.

(** [s.startswith(p)] *)
Definition startswith (s p : string) : bool := String.prefix p s.

(** [s.endswith(p)] *)
Definition endswith (s p : string) : bool :=
  let n := String.length s in
  let k := String.length p in
  if Nat.leb k n then String.eqb (String.substring (n - k) k s) p else false.

(** [c in s] for a one-character string [c] *)
Fixpoint contains_char (c : ascii) (s : string) : bool :=
  match s with
  | EmptyString => false
  | String a s' => if Ascii.eqb a c then true else contains_char c s'
  end.

(** Truth value of an optional string: [None] and [''] are falsy. *)
Definition truthy (v : option string) : bool :=
  match v with
  | Some s => negb (String.eqb s "")
  | None => false
  end.

(** [v or d] where [d] is a string: [v] when it is truthy, else [d].
    ([a or b or ''] is [or_str a (or_str b '')], [or] being associative
    on values.) *)
Definition or_str (v : option string) (d : string) : string :=
  match v with
  | Some s => if String.eqb s "" then d else s
  | None => d
  end.

(** [s.split(sep)] for a one-character separator: never empty. *)
Fixpoint split (sep : ascii) (s : string) : list string :=
  match s with
  | EmptyString => [""]
  | String c s' =>
      if Ascii.eqb c sep then "" :: split sep s'
      else match split sep s' with
           | [] => [String c ""]
           | h :: t => String c h :: t
           end
  end.

End Py.

(** ** pathlib: the part of [PurePosixPath] the program relies on *)

Module Pathlib.

(** A [Path] is kept as what [str(path)] gives: the normalised text. *)
Definition Path := string.

Definition is_part (c : string) : bool :=
  negb (String.eqb c "") && negb (String.eqb c ".").

(** The components of a path text: split on the separator, the empty
    and the [.] components dropped. *)
Definition parts (s : string) : list string :=
  filter (λ c, is_part c = true) (Py.split "/"%char s).

(** The root: [//] for exactly two leading separators, [/] for one or for
    three and more, else none. *)
Definition root (s : string) : string :=
  if Py.startswith s "///" then "/"
  else if Py.startswith s "//" then "//"
  else if Py.startswith s "/" then "/"
  else "".

(** [Path(s)], as its text. *)
Definition mkPath (s : string) : Path :=
  match root s, parts s with
  | "", [] => "."
  | r, ps => r +:+ String.concat "/" ps
  end.

(** [path.name]: the final component, [''] when there is none. *)
Definition name (p : Path) : string := List.last (parts p) "".

End Pathlib.

(** ** xml.etree.ElementTree: elements and [iter] *)

Local Unset Elimination Schemes.
Inductive Element : Type :=
  Elem { tag : string; attrib : gmap string string; children : list Element }.
Local Set Elimination Schemes.

(** [e.get(key)]: the attribute or [None]. *)
Definition get (e : Element) (key : string) : option string := attrib e !! key.

(** [e.iter(t)] for a tag [t] other than ['*']: the element itself when its
    tag is [t], then the [iter] of each child in order (a pre-order walk of
    the whole subtree, whatever the tags on the way). *)
Fixpoint iter (t : string) (e : Element) : list Element :=
  match e with
  | Elem tg _ cs =>
      (if String.eqb tg t then [e] else []) ++ flat_map (iter t) cs
  end.

(** Every node of a subtree in document order. *)
Fixpoint nodes (e : Element) : list Element :=
  match e with
  | Elem _ _ cs => e :: flat_map nodes cs
  end.

(** [d] is [e] or lies below it, at any depth. *)
Inductive descendant (d : Element) : Element → Prop :=
  | desc_self : descendant d d
  | desc_child e c : c ∈ children e → descendant d c → descendant d e.

(** ** Data model *)

Record FeedRecord := { url : string; title : string }.

Record Exn := { exn_msg : string }.

Inductive outcome (A : Type) : Type :=
  | Ret (a : A)
  | Raise (e : Exn).
Arguments Ret {A} a.
Arguments Raise {A} e.

(** What the run reads from its environment.  The text of an input file
    enters only through the result of [ET.parse]; wildcard expansion gives
    its matches in the order the file system reports them.  The existence
    check is read here as a check that answers; the environment in which
    it can raise is [Strict.Env] below. *)
Record World := {
  fs_exists : Pathlib.Path → bool;               (* [path.exists()] *)
  et_parse : Pathlib.Path → outcome Element;     (* [ET.parse(path).getroot()] *)
  fs_glob : string → outcome (list string);      (* [Path('.').glob(pattern)] *)
  fs_open_w : string → option Exn                (* error of [open(path, 'w')] *)
}.

(** What the run changes: the lines printed and the text files on disk, a
    file being identified by the text of its path as handed to [open]. *)
Record Sys := { stdout : list string; disk : gmap string string }.

(** ** The monad of effects: state [Sys] and exceptions *)

Definition M (A : Type) : Type := Sys → outcome A * Sys.

Definition ret {A} (a : A) : M A := λ s, (Ret a, s).

Definition bind {A B} (m : M A) (k : A → M B) : M B :=
  λ s, match m s with
       | (Ret a, s') => k a s'
       | (Raise e, s') => (Raise e, s')
       end.

(** [try: m except Exception as e: h e] *)
Definition try_except {A} (m : M A) (h : Exn → M A) : M A :=
  λ s, match m s with
       | (Ret a, s') => (Ret a, s')
       | (Raise e, s') => h e s'
       end.

Definition lift {A} (o : outcome A) : M A := λ s, (o, s).

Global Instance M_ret : MRet M := @ret.
Global Instance M_bind : MBind M := λ A B k m, bind m k.

(** [print(line)], taken to succeed. *)
Definition print (line : string) : M unit :=
  λ s, (Ret tt, {| stdout := stdout s ++ [line]; disk := disk s |}).

(** [for x in l: body x], the loop variables carried in [a]. *)
Fixpoint for_each {A B} (l : list B) (body : A → B → M A) (a : A) : M A :=
  match l with
  | [] => ret a
  | x :: l' => a' ← body a x; for_each l' body a'
  end.

(** ** extract_feeds_from_opml *)

(** Lines 27-34: the body of the loop over the outline elements. *)
Definition outline_feed (outline : Element) : list FeedRecord :=
  let xml_url := get outline "xmlUrl" in
  if Py.truthy xml_url then
    [ {| url := default "" xml_url;
         title := Py.or_str (get outline "title")
                    (Py.or_str (get outline "text") "") |} ]
  else [].

Definition extract_feeds (root : Element) : list FeedRecord :=
  flat_map outline_feed (iter "outline" root).

Definition extract_feeds_from_opml (w : World) (opml_file : Pathlib.Path)
  : M (list FeedRecord) :=
  try_except
    (root ← lift (et_parse w opml_file);
     ret (extract_feeds root))
    (λ e,
      print ("Error parsing " +:+ opml_file +:+ ": " +:+ exn_msg e) ;;
      ret []).

(** ** process_opml_files *)

Definition separator : string := "# ========================================".

(** Lines 67-78: the three header records of a file. *)
Definition section_markers (opml_file : Pathlib.Path) : list FeedRecord :=
  [ {| url := separator; title := "" |};
    {| url := "# Feeds from: " +:+ Pathlib.name opml_file; title := "" |};
    {| url := separator; title := "" |} ].

(** The loop variables of the second loop: [all_feeds] and [seen_urls]. *)
Definition agg_state : Type := list FeedRecord * gset string.

(** Lines 49-54: one pattern added to [files_to_process]. *)
Definition resolve_pattern (w : World) (files_to_process : list Pathlib.Path)
    (pattern : string) : M (list Pathlib.Path) :=
  if Py.contains_char "*" pattern || Py.contains_char "?" pattern then
    matches ← lift (fs_glob w pattern);
    mret (files_to_process ++ (Pathlib.mkPath <$> matches))
  else
    mret (files_to_process ++ [Pathlib.mkPath pattern]).

Definition resolve_inputs (w : World) (input_files : list string)
  : M (list Pathlib.Path) :=
  for_each input_files (resolve_pattern w) [].

(** Lines 82-84: one extracted feed against the set of seen urls. *)
Definition add_feed (st : agg_state) (feed : FeedRecord) : agg_state :=
  if decide (url feed ∈ st.2) then st
  else (st.1 ++ [feed], st.2 ∪ {[ url feed ]}).

(** Lines 66-84, after the extraction. *)
Definition add_file (add_comments : bool) (opml_file : Pathlib.Path)
    (feeds : list FeedRecord) (st : agg_state) : agg_state :=
  let all_feeds :=
    if add_comments && negb (bool_decide (feeds = []))
    then st.1 ++ section_markers opml_file
    else st.1 in
  fold_left add_feed feeds (all_feeds, st.2).

(** Lines 58-86: the body of the loop over [files_to_process], the check of
    line 58 answering ([Strict.process_file] has the check that raises). *)
Definition process_file (w : World) (add_comments : bool) (st : agg_state)
    (opml_file : Pathlib.Path) : M agg_state :=
  if negb (fs_exists w opml_file) then
    print ("Warning: " +:+ opml_file +:+ " not found, skipping...");;
    mret st
  else
    print ("Processing " +:+ opml_file +:+ "...");;
    feeds ← extract_feeds_from_opml w opml_file;
    let st' := add_file add_comments opml_file feeds st in
    print ("  Found " +:+ pretty (length feeds) +:+ " feeds");;
    mret st'.

(** [open(output_file, 'w')]: fails, or leaves an empty file. *)
Definition open_w (w : World) (output_file : string) : M unit :=
  λ s, match fs_open_w w output_file with
       | Some e => (Raise e, s)
       | None => (Ret tt, {| stdout := stdout s;
                             disk := <[output_file := ""]> (disk s) |})
       end.

(** [f.write(text)] on the file opened at [output_file], taken to succeed. *)
Definition f_write (output_file text : string) : M unit :=
  λ s, (Ret tt,
        {| stdout := stdout s;
           disk := <[output_file := default "" (disk s !! output_file) +:+ text]>
                     (disk s) |}).

Definition when (b : bool) (m : M unit) : M unit := if b then m else mret tt.

(** Lines 91-96: the body of the writing loop. *)
Definition write_feed (output_file : string) (add_comments : bool)
    (_ : unit) (feed : FeedRecord) : M unit :=
  when (add_comments && negb (String.eqb (title feed) "")
        && negb (Py.startswith (url feed) "#"))
    (f_write output_file ("# " +:+ title feed +:+ Py.LF));;
  f_write output_file (url feed +:+ Py.LF);;
  when (add_comments && negb (Py.startswith (url feed) "#"))
    (f_write output_file Py.LF).

(** Lines 57-86: the loop over [files_to_process], from no feed and no
    seen url. *)
Definition aggregate (w : World) (add_comments : bool)
    (files_to_process : list Pathlib.Path) : M agg_state :=
  for_each files_to_process (process_file w add_comments) ([], ∅).

(** Lines 89-96: the [with open(...)] block. *)
Definition write_output (w : World) (output_file : string)
    (add_comments : bool) (all_feeds : list FeedRecord) : M unit :=
  open_w w output_file;;
  for_each all_feeds (write_feed output_file add_comments) tt.

(** Line 98: the closing message. *)
Definition converted_line (n : nat) (output_file : string) : string :=
  Py.LF +:+ "✓ Converted " +:+ pretty n +:+ " unique feeds to " +:+ output_file.

Definition process_opml_files (w : World) (input_files : list string)
    (output_file : string) (add_comments : bool) : M nat :=
  files_to_process ← resolve_inputs w input_files;
  st ← aggregate w add_comments files_to_process;
  write_output w output_file add_comments st.1;;
  print (converted_line (size st.2) output_file);;
  mret (size st.2).

(** ** main *)

Definition doc : string := "
OPML to feedlist.txt Converter
Converts OPML files to simple text format for rssfeedz

Usage:
    python3 opml_to_feedlist.py input.opml [output.txt]
    python3 opml_to_feedlist.py *.opml combined_feeds.txt
".

Definition usage : list string :=
  [ doc;
    Py.LF +:+ "Examples:";
    "  python3 opml_to_feedlist.py feeds.opml";
    "  python3 opml_to_feedlist.py tech_feeds.opml my_feeds.txt";
    "  python3 opml_to_feedlist.py *.opml combined.txt";
    "  python3 opml_to_feedlist.py tech.opml news.opml linux.opml all_feeds.txt" ].

(** Lines 113-119: the arguments of the run. *)
Record RunConfig := {
  input_patterns : list string;
  output_path : string;
  add_comments : bool
}.

Definition parse_args (argv : list string) : RunConfig :=
  let last_is_output :=
    (2 <? length argv)%nat && negb (Py.endswith (List.last argv "") ".opml") in
  let input_files := if last_is_output then removelast (tail argv) else tail argv in
  let output_file := if last_is_output then List.last argv "" else "feedlist.txt" in
  let no_comments := bool_decide ("--no-comments" ∈ argv) in
  {| input_patterns :=
       if no_comments
       then filter (λ f, f ≠ "--no-comments") input_files
       else input_files;
     output_path := output_file;
     add_comments := negb no_comments |}.

(** [main()], its result the exit status of the process. *)
Definition main (w : World) (argv : list string) : M nat :=
  if (length argv <? 2)%nat then
    for_each usage (λ _ line, print line) tt;;
    mret 1%nat
  else
    let cfg := parse_args argv in
    try_except
      (process_opml_files w (input_patterns cfg) (output_path cfg)
         (add_comments cfg);;
       print (Py.LF +:+ "✓ Done! Ready to use with rssfeedz.");;
       print ("  Copy " +:+ output_path cfg +:+ " to ~/rssfeedz/feedlist.txt");;
       mret 0%nat)
      (λ e,
        print (Py.LF +:+ "✗ Error: " +:+ exn_msg e);;
        mret 1%nat).

(** ** The values the effectful code computes

    Pure readings of the loops above; the lemmas of the next part show that
    the monadic code returns exactly these. *)

(** What [extract_feeds_from_opml] returns for a path. *)
Definition feeds_of (w : World) (p : Pathlib.Path) : list FeedRecord :=
  match et_parse w p with
  | Ret root => extract_feeds root
  | Raise _ => []
  end.

(** What the extractor prints for a path. *)
Definition extract_log (w : World) (p : Pathlib.Path) : list string :=
  match et_parse w p with
  | Ret _ => []
  | Raise e => ["Error parsing " +:+ p +:+ ": " +:+ exn_msg e]
  end.

(** The records a resolved path hands to the aggregator: those of the
    extractor, none for a path that does not exist. *)
Definition extracted (w : World) (p : Pathlib.Path) : list FeedRecord :=
  if fs_exists w p then feeds_of w p else [].

(** Every extracted record of a run, in file-then-document order. *)
Definition all_extracted (w : World) (files : list Pathlib.Path)
  : list FeedRecord :=
  flat_map (extracted w) files.

(** What one iteration of the loop over the files prints. *)
Definition file_log (w : World) (p : Pathlib.Path) : list string :=
  if fs_exists w p then
    ["Processing " +:+ p +:+ "..."] ++ extract_log w p
    ++ ["  Found " +:+ pretty (length (feeds_of w p)) +:+ " feeds"]
  else ["Warning: " +:+ p +:+ " not found, skipping..."].

(** The set of the urls of a list of records. *)
Definition urls_of (l : list FeedRecord) : gset string :=
  list_to_set (url <$> l).

(** The records of [feeds] that lines 81-84 append, given the urls seen. *)
Fixpoint keep_fresh (seen : gset string) (feeds : list FeedRecord)
  : list FeedRecord :=
  match feeds with
  | [] => []
  | f :: fs =>
      if decide (url f ∈ seen) then keep_fresh seen fs
      else f :: keep_fresh (seen ∪ {[ url f ]}) fs
  end.

(** The header records a file gets. *)
Definition markers_for (add_comments : bool) (p : Pathlib.Path)
    (feeds : list FeedRecord) : list FeedRecord :=
  if add_comments && negb (bool_decide (feeds = []))
  then section_markers p else [].

(** What the loop over the files appends to [all_feeds]. *)
Fixpoint blocks (w : World) (add_comments : bool) (seen : gset string)
    (files : list Pathlib.Path) : list FeedRecord :=
  match files with
  | [] => []
  | p :: ps =>
      markers_for add_comments p (extracted w p)
      ++ keep_fresh seen (extracted w p)
      ++ blocks w add_comments (seen ∪ urls_of (extracted w p)) ps
  end.

(** The text the writing loop writes for one record. *)
Definition feed_text (add_comments : bool) (feed : FeedRecord) : string :=
  (if add_comments && negb (String.eqb (title feed) "")
      && negb (Py.startswith (url feed) "#")
   then "# " +:+ title feed +:+ Py.LF else "")
  +:+ (url feed +:+ Py.LF)
  +:+ (if add_comments && negb (Py.startswith (url feed) "#")
       then Py.LF else "").

Definition output_text (add_comments : bool) (all_feeds : list FeedRecord)
  : string :=
  foldr (λ feed rest, feed_text add_comments feed +:+ rest) "" all_feeds.

(** The paths the input patterns resolve to, or the error of the
    expansion: the first loop has no effect on the state. *)
Definition resolved (w : World) (input_files : list string)
  : outcome (list Pathlib.Path) :=
  (resolve_inputs w input_files {| stdout := []; disk := ∅ |}).1.

(** ** The specification's notions *)

(** A record is a comment when its url starts with [#]. *)
Definition is_comment (r : FeedRecord) : bool := Py.startswith (url r) "#".

(** First-seen-wins: the record at index [i] survives exactly when no
    earlier record has its url; the survivors keep their order. *)
Definition first_seen (l : list FeedRecord) : list FeedRecord :=
  snd <$>
    filter (λ ir : nat * FeedRecord, url ir.2 ∉ url <$> take ir.1 l)
      (imap pair l).

(** The record the specification asks for a node: none unless the node is
    tagged [outline] and has a non-empty [xmlUrl]; the title is the
    [title] attribute if present and non-empty, else the [text] attribute
    if present and non-empty, else empty. *)
Definition nonempty_attr (n : Element) (key : string) : option string :=
  match attrib n !! key with
  | Some v => if decide (v = "") then None else Some v
  | None => None
  end.

Definition spec_title (n : Element) : string :=
  match nonempty_attr n "title" with
  | Some t => t
  | None =>
      match nonempty_attr n "text" with
      | Some x => x
      | None => ""
      end
  end.

Definition spec_record (n : Element) : option FeedRecord :=
  if decide (tag n = "outline") then
    match nonempty_attr n "xmlUrl" with
    | Some u => Some {| url := u; title := spec_title n |}
    | None => None
    end
  else None.

(** The lines of a text file: the pieces ended by a line feed, and what
    follows the last line feed when it is not empty. *)
Fixpoint lines_from (cur : string) (s : string) : list string :=
  match s with
  | EmptyString => if String.eqb cur "" then [] else [cur]
  | String c s' =>
      if Ascii.eqb c "010" then cur :: lines_from "" s'
      else lines_from (cur +:+ String c "") s'
  end.

Definition lines (s : string) : list string := lines_from "" s.

(** A path that is missing, fails to parse, or holds no feed. *)
Definition yields_nothing (w : World) (p : Pathlib.Path) : Prop :=
  fs_exists w p = false
  ∨ (∃ e, et_parse w p = Raise e)
  ∨ (∃ root, et_parse w p = Ret root ∧ extract_feeds root = []).

(** The text of a run without comments: each url and a line feed. *)
Definition url_lines (l : list FeedRecord) : string :=
  foldr (λ r rest, url r +:+ Py.LF +:+ rest) "" l.

(** ** Sample inputs *)

Module Sample.

Definition leaf (t u : string) : Element :=
  Elem "outline" {[ "title" := t; "xmlUrl" := u ]} [].

(** A folder holding two feeds, the second titled by its [text]. *)
Definition tech_doc : Element :=
  Elem "opml" ∅
    [ Elem "head" ∅ [];
      Elem "body" ∅
        [ Elem "outline" {[ "text" := "Tech" ]}
            [ leaf "Blog" "https://a.com/rss";
              Elem "outline" {[ "text" := "B2"; "xmlUrl" := "https://b.com/rss" ]} [] ] ] ].

(** One feed, its url already in [tech_doc]. *)
Definition news_doc : Element :=
  Elem "opml" ∅
    [ Elem "body" ∅
        [ Elem "outline" {[ "text" := "Blog2"; "xmlUrl" := "https://a.com/rss" ]} [] ] ].

(** One feed whose url starts with [#]. *)
Definition hash_doc : Element :=
  Elem "opml" ∅ [ Elem "body" ∅ [ leaf "Note" "#note" ] ].

Definition parse_error : Exn := {| exn_msg := "syntax error: line 1, column 0" |}.

Definition files_exist (p : Pathlib.Path) : bool :=
  bool_decide (p ∈ ["tech.opml"; "news.opml"; "bad.opml"; "hash.opml"]).

Definition files_parse (p : Pathlib.Path) : outcome Element :=
  if String.eqb p "tech.opml" then Ret tech_doc
  else if String.eqb p "news.opml" then Ret news_doc
  else if String.eqb p "hash.opml" then Ret hash_doc
  else Raise parse_error.

(** The directory listed as [tech.opml], [news.opml]. *)
Definition world : World := {|
  fs_exists := files_exist;
  et_parse := files_parse;
  fs_glob := λ pat, if String.eqb pat "*.opml"
                    then Ret ["tech.opml"; "news.opml"] else Ret [];
  fs_open_w := λ _, None
|}.


(** Nothing printed yet, an older [feedlist.txt] and [out.txt] on disk. *)
Definition start : Sys :=
  {| stdout := []; disk := {[ "feedlist.txt" := "stale"; "out.txt" := "stale" ]} |}.

End Sample.

(** ** Notions for the properties of the resolver and the writer *)

(** [pattern] is expanded as a wildcard (line 50). *)
Definition is_wildcard (pattern : string) : bool :=
  Py.contains_char "*" pattern || Py.contains_char "?" pattern.

(** Two expansions, one after the other. *)
Definition outcome_app {A} (a b : outcome (list A)) : outcome (list A) :=
  match a with
  | Raise e => Raise e
  | Ret x => match b with
             | Raise e => Raise e
             | Ret y => Ret (x ++ y)
             end
  end.

(** Line 127: the message of the handler in [main]. *)
Definition error_line (e : Exn) : string := Py.LF +:+ "✗ Error: " +:+ exn_msg e.

(** A line the reader of the feed list takes as a url: not blank, not
    starting with [#]. *)
Definition is_feed_line (line : string) : bool :=
  negb (String.eqb line "") && negb (Py.startswith line "#").

(** The lines lines 91-96 write for one record. *)
Definition record_lines (add_comments : bool) (feed : FeedRecord) : list string :=
  (if add_comments && negb (String.eqb (title feed) "")
      && negb (Py.startswith (url feed) "#")
   then ["# " +:+ title feed] else [])
  ++ [url feed]
  ++ (if add_comments && negb (Py.startswith (url feed) "#") then [""] else []).

(** A record whose url and title hold no line feed. *)
Definition one_line (r : FeedRecord) : Prop :=
  Py.contains_char "010" (url r) = false ∧ Py.contains_char "010" (title r) = false.

(** The files that get header records: those with at least one extracted
    record. *)
Definition annotated (w : World) (files : list Pathlib.Path) : list Pathlib.Path :=
  filter (λ p, extracted w p ≠ []) files.

(** ** Sample environments that fail *)

Module Faulty.

Definition glob_error : Exn :=
  {| exn_msg := "Non-relative patterns are unsupported" |}.

(** Expansion raises for a pattern that starts at the root. *)
Definition world_glob : World := {|
  fs_exists := Sample.files_exist;
  et_parse := Sample.files_parse;
  fs_glob := λ pat, if Py.startswith pat "/" then Raise glob_error
                    else Ret ["tech.opml"; "news.opml"];
  fs_open_w := λ _, None
|}.

Definition open_error : Exn :=
  {| exn_msg := "[Errno 13] Permission denied: '/out.txt'" |}.

(** [/out.txt] cannot be opened for writing. *)
Definition world_open : World := {|
  fs_exists := Sample.files_exist;
  et_parse := Sample.files_parse;
  fs_glob := λ _, Ret [];
  fs_open_w := λ p, if String.eqb p "/out.txt" then Some open_error else None
|}.

End Faulty.

(** Components: not empty, not [.], without separator. *)
Definition component (c : string) : Prop :=
  Pathlib.is_part c = true ∧ Py.contains_char "/" c = false.

(** ** The run with an existence check that can raise *)

Module Strict.

(** The environment of [World] and, for the paths where [path.exists()]
    raises instead of answering (an unsearchable directory, a name too
    long), the error it raises. *)
Record Env := {
  world : World;
  exists_error : Pathlib.Path → option Exn
}.

(** [path.exists()] *)
Definition path_exists (e : Env) (p : Pathlib.Path) : M bool :=
  λ s, match exists_error e p with
       | Some x => (Raise x, s)
       | None => (Ret (fs_exists (world e) p), s)
       end.

(** Lines 58-86, the check of line 58 outside any [try]. *)
Definition process_file (e : Env) (add_comments : bool) (st : agg_state)
    (opml_file : Pathlib.Path) : M agg_state :=
  found ← path_exists e opml_file;
  if negb found then
    print ("Warning: " +:+ opml_file +:+ " not found, skipping...");;
    mret st
  else
    print ("Processing " +:+ opml_file +:+ "...");;
    feeds ← extract_feeds_from_opml (world e) opml_file;
    let st' := add_file add_comments opml_file feeds st in
    print ("  Found " +:+ pretty (length feeds) +:+ " feeds");;
    mret st'.

Definition aggregate (e : Env) (add_comments : bool)
    (files_to_process : list Pathlib.Path) : M agg_state :=
  for_each files_to_process (process_file e add_comments) ([], ∅).

Definition process_opml_files (e : Env) (input_files : list string)
    (output_file : string) (add_comments : bool) : M nat :=
  files_to_process ← resolve_inputs (world e) input_files;
  st ← aggregate e add_comments files_to_process;
  write_output (world e) output_file add_comments st.1;;
  print (converted_line (size st.2) output_file);;
  mret (size st.2).

Definition main (e : Env) (argv : list string) : M nat :=
  if (length argv <? 2)%nat then
    for_each usage (λ _ line, print line) tt;;
    mret 1%nat
  else
    let cfg := parse_args argv in
    try_except
      (process_opml_files e (input_patterns cfg) (output_path cfg)
         (add_comments cfg);;
       print (Py.LF +:+ "✓ Done! Ready to use with rssfeedz.");;
       print ("  Copy " +:+ output_path cfg +:+ " to ~/rssfeedz/feedlist.txt");;
       mret 0%nat)
      (λ e,
        print (Py.LF +:+ "✗ Error: " +:+ exn_msg e);;
        mret 1%nat).

(** Every check of the list answers. *)
Definition checks_answer (e : Env) (files : list Pathlib.Path) : Prop :=
  Forall (λ p, exists_error e p = None) files.

End Strict.

(** ** Sample environments for the existence check and for a second run *)

Module Rerun.


Definition permission_error : Exn :=
  {| exn_msg := "[Errno 13] Permission denied: 'locked/feeds.opml'" |}.

(** The sample files, every existence check answering. *)
Definition env_checked : Strict.Env :=
  {| Strict.world := Sample.world; Strict.exists_error := λ _, None |}.

(** The sample files and a path below a directory that cannot be searched:
    its existence check raises. *)
Definition env_locked : Strict.Env :=
  {| Strict.world := Sample.world;
     Strict.exists_error := λ p, if String.eqb p "locked/feeds.opml"
                                 then Some permission_error else None |}.

(** The sample files, [/out.txt] not writable. *)
Definition env_read_only : Strict.Env :=
  {| Strict.world := Faulty.world_open; Strict.exists_error := λ _, None |}.

End Rerun.

(** * Properties *)

(** ** Induction on elements *)

Lemma Element_ind' (P : Element → Prop) :
  (∀ tg a cs, Forall P cs → P (Elem tg a cs)) → ∀ e, P e.
Proof.
  intros H. fix IH 1. intros [tg a cs]. apply H.
  induction cs as [|c cs IHcs]; constructor; [apply IH | apply IHcs].
Qed.

(** ** Strings *)

Lemma str_app_cons a s t : String a s +:+ t = String a (s +:+ t).
Proof. reflexivity. Qed.

Lemma str_app_nil_r s : s +:+ "" = s.
Proof. induction s as [|a s IH]; [done|]. by rewrite str_app_cons, IH. Qed.

Lemma str_app_assoc s t u : (s +:+ t) +:+ u = s +:+ (t +:+ u).
Proof. induction s as [|a s IH]; [done|]. by rewrite !str_app_cons, IH. Qed.

(** ** The notions at work on small inputs *)

Example first_seen_sample :
  first_seen [ {| url := "u"; title := "1" |}; {| url := "v"; title := "2" |};
               {| url := "u"; title := "3" |}; {| url := "V"; title := "4" |} ]
  = [ {| url := "u"; title := "1" |}; {| url := "v"; title := "2" |};
      {| url := "V"; title := "4" |} ].
Proof. vm_compute. reflexivity. Qed.

Example lines_sample :
  lines ("a" +:+ Py.LF +:+ Py.LF +:+ "# b" +:+ Py.LF) = ["a"; ""; "# b"].
Proof. reflexivity. Qed.

Example name_sample :
  Pathlib.name (Pathlib.mkPath "./feeds//tech.opml") = "tech.opml"
  ∧ Pathlib.mkPath "./feeds//tech.opml" = "feeds/tech.opml".
Proof. split; reflexivity. Qed.

Example extract_sample :
  extract_feeds Sample.tech_doc
  = [ {| url := "https://a.com/rss"; title := "Blog" |};
      {| url := "https://b.com/rss"; title := "B2" |} ].
Proof. vm_compute. reflexivity. Qed.

(** ** What the effectful code returns *)

(** Unfolds the monad down to functions on the state. *)
Ltac run_monad :=
  unfold mbind, M_bind, bind, mret, M_ret, ret, lift, print, when; simpl.

Lemma sys_eta s : {| stdout := stdout s ++ []; disk := disk s |} = s.
Proof. destruct s; simpl. by rewrite app_nil_r. Qed.

Lemma extract_run w p s :
  extract_feeds_from_opml w p s =
  (Ret (feeds_of w p),
   {| stdout := stdout s ++ extract_log w p; disk := disk s |}).
Proof.
  unfold extract_feeds_from_opml, try_except, feeds_of, extract_log, lift,
    mbind, M_bind, bind, mret, M_ret, ret, print.
  destruct (et_parse w p) as [root|e]; simpl; [by rewrite sys_eta | done].
Qed.

Lemma add_file_nil add p st : add_file add p [] st = st.
Proof. unfold add_file. rewrite andb_false_r. by destruct st. Qed.

Lemma process_file_run w add st p s :
  process_file w add st p s =
  (Ret (add_file add p (extracted w p) st),
   {| stdout := stdout s ++ file_log w p; disk := disk s |}).
Proof.
  unfold process_file, extracted, file_log.
  destruct (fs_exists w p); simpl.
  - unfold mbind, M_bind, bind, print at 1. rewrite extract_run. simpl.
    unfold print, mret, M_ret, ret. simpl. by rewrite <- !app_assoc.
  - unfold mbind, M_bind, bind, print, mret, M_ret, ret. simpl.
    by rewrite add_file_nil.
Qed.

Lemma files_run w add files st s :
  for_each files (process_file w add) st s =
  (Ret (fold_left (λ st p, add_file add p (extracted w p) st) files st),
   {| stdout := stdout s ++ flat_map (file_log w) files; disk := disk s |}).
Proof.
  revert st s. induction files as [|p ps IH]; intros st s; simpl.
  - unfold ret. by rewrite sys_eta.
  - unfold mbind, M_bind, bind. rewrite process_file_run, IH. simpl.
    by rewrite <- app_assoc.
Qed.

Lemma fold_add_feed feeds af seen :
  fold_left add_feed feeds (af, seen) =
  (af ++ keep_fresh seen feeds, seen ∪ urls_of feeds).
Proof.
  revert af seen. induction feeds as [|f fs IH]; intros af seen; simpl.
  - rewrite app_nil_r. f_equal. unfold urls_of. simpl. set_solver.
  - unfold add_feed at 2. simpl. destruct (decide (url f ∈ seen)).
    + rewrite IH. f_equal. unfold urls_of. simpl. set_solver.
    + rewrite IH, <- app_assoc. simpl. f_equal. unfold urls_of. simpl. set_solver.
Qed.

Lemma urls_of_app l1 l2 : urls_of (l1 ++ l2) = urls_of l1 ∪ urls_of l2.
Proof. unfold urls_of. rewrite fmap_app. set_solver. Qed.

Lemma fold_files w add files af seen :
  fold_left (λ st p, add_file add p (extracted w p) st) files (af, seen) =
  (af ++ blocks w add seen files, seen ∪ urls_of (all_extracted w files)).
Proof.
  revert af seen. induction files as [|p ps IH]; intros af seen; simpl.
  - rewrite app_nil_r. f_equal. unfold urls_of; simpl. set_solver.
  - unfold add_file at 2, markers_for. simpl.
    destruct (add && negb (bool_decide (extracted w p = []))).
    + rewrite fold_add_feed, IH. rewrite <- !app_assoc. f_equal.
      unfold all_extracted. rewrite urls_of_app. set_solver.
    + rewrite fold_add_feed, IH. rewrite <- !app_assoc. f_equal.
      unfold all_extracted. rewrite urls_of_app. set_solver.
Qed.

Lemma aggregate_run w add files s :
  aggregate w add files s =
  (Ret (blocks w add ∅ files, urls_of (all_extracted w files)),
   {| stdout := stdout s ++ flat_map (file_log w) files; disk := disk s |}).
Proof.
  unfold aggregate. rewrite files_run, fold_files. simpl.
  by rewrite (left_id_L ∅ (∪)).
Qed.

Lemma elem_of_urls_of u l : u ∈ urls_of l ↔ u ∈ url <$> l.
Proof. unfold urls_of. by rewrite elem_of_list_to_set. Qed.

Lemma urls_of_snoc l f : urls_of (l ++ [f]) = urls_of l ∪ {[ url f ]}.
Proof. rewrite urls_of_app. unfold urls_of at 2. simpl. set_solver. Qed.

Lemma keep_fresh_index pre l :
  keep_fresh (urls_of pre) l =
  snd <$>
    filter (λ ir : nat * FeedRecord, url ir.2 ∉ url <$> take ir.1 (pre ++ l))
      (imap (λ i r, (length pre + i, r)) l).
Proof.
  revert pre. induction l as [|f fs IH]; intros pre; [done|].
  rewrite imap_cons, filter_cons. simpl keep_fresh.
  assert (Hext : imap ((λ i r, (length pre + i, r)) ∘ S) fs
                 = imap (λ i r, (length (pre ++ [f]) + i, r)) fs).
  { apply imap_ext. intros i x _. simpl. rewrite length_app. simpl. f_equal. lia. }
  rewrite Hext. clear Hext.
  specialize (IH (pre ++ [f])). rewrite <- app_assoc in IH. simpl in IH.
  cbn [fst snd]. rewrite Nat.add_0_r, take_app_length.
  destruct (decide (url f ∈ urls_of pre)) as [Hin|Hnin].
  - rewrite decide_False by (rewrite <- elem_of_urls_of; tauto).
    rewrite <- IH. f_equal. rewrite urls_of_snoc. set_solver.
  - rewrite decide_True by (by rewrite <- elem_of_urls_of).
    rewrite fmap_cons. cbn [snd]. f_equal. rewrite <- IH.
    by rewrite urls_of_snoc.
Qed.

Lemma keep_fresh_first_seen l : keep_fresh ∅ l = first_seen l.
Proof.
  change (∅ : gset string) with (urls_of []). rewrite keep_fresh_index.
  unfold first_seen. simpl. done.
Qed.

Lemma keep_fresh_app seen l1 l2 :
  keep_fresh seen (l1 ++ l2) =
  keep_fresh seen l1 ++ keep_fresh (seen ∪ urls_of l1) l2.
Proof.
  revert seen. induction l1 as [|f fs IH]; intros seen; simpl.
  - f_equal. unfold urls_of. simpl. set_solver.
  - destruct (decide (url f ∈ seen)).
    + rewrite IH. do 2 f_equal. unfold urls_of. simpl. set_solver.
    + simpl. rewrite IH. do 3 f_equal. unfold urls_of. simpl. set_solver.
Qed.

Lemma keep_fresh_elem seen l r :
  r ∈ keep_fresh seen l → r ∈ l ∧ url r ∉ seen.
Proof.
  revert seen. induction l as [|f fs IH]; intros seen; simpl; [by intros ?%elem_of_nil|].
  destruct (decide (url f ∈ seen)).
  - intros [??]%IH. split; [by right | done].
  - intros [->|[??]%IH]%elem_of_cons; [split; [by left|done]|].
    split; [by right | set_solver].
Qed.


Lemma blocks_app w add seen l1 l2 :
  blocks w add seen (l1 ++ l2) =
  blocks w add seen l1 ++ blocks w add (seen ∪ urls_of (all_extracted w l1)) l2.
Proof.
  revert seen. induction l1 as [|p ps IH]; intros seen; simpl.
  - f_equal. unfold urls_of. simpl. set_solver.
  - rewrite IH, <- !app_assoc.
    replace (seen ∪ urls_of (extracted w p ++ all_extracted w ps))
      with (seen ∪ urls_of (extracted w p) ∪ urls_of (all_extracted w ps)); [done|].
    rewrite urls_of_app. set_solver.
Qed.

Lemma all_extracted_app w l1 l2 :
  all_extracted w (l1 ++ l2) = all_extracted w l1 ++ all_extracted w l2.
Proof. apply flat_map_app. Qed.

Lemma blocks_no_comments w seen files :
  blocks w false seen files = keep_fresh seen (all_extracted w files).
Proof.
  revert seen. induction files as [|p ps IH]; intros seen; [done|].
  simpl. by rewrite keep_fresh_app, IH.
Qed.

Lemma section_markers_comments p :
  Forall (λ r, is_comment r = true) (section_markers p).
Proof. repeat constructor. Qed.

Lemma filter_comments_nil l :
  Forall (λ r, is_comment r = true) l →
  filter (λ r, is_comment r = false) l = [].
Proof.
  induction 1 as [|r l Hr _ IH]; [done|].
  rewrite filter_cons, decide_False by congruence. done.
Qed.

Lemma blocks_feeds w add seen files :
  filter (λ r, is_comment r = false) (blocks w add seen files) =
  filter (λ r, is_comment r = false) (keep_fresh seen (all_extracted w files)).
Proof.
  revert seen. induction files as [|p ps IH]; intros seen; [done|].
  simpl. rewrite keep_fresh_app, !filter_app, IH.
  unfold markers_for.
  destruct (andb _ _); [|done].
  by rewrite (filter_comments_nil _ (section_markers_comments p)).
Qed.

Lemma keep_fresh_count seen l u :
  length (filter (λ r, url r = u) (keep_fresh seen l)) =
  if decide ((u ∉ seen) ∧ (u ∈ url <$> l)) then 1 else 0.
Proof.
  revert seen. induction l as [|f fs IH]; intros seen; simpl.
  - rewrite decide_False; [done|]. intros [_ ?%elem_of_nil]. done.
  - destruct (decide (url f ∈ seen)) as [Hin|Hnin].
    + rewrite IH. apply decide_ext. rewrite elem_of_cons.
      split; [tauto|]. intros [Hu [->|?]]; tauto.
    + rewrite filter_cons. destruct (decide (url f = u)) as [<-|Hne].
      * simpl. rewrite IH, decide_False by set_solver.
        rewrite decide_True; [done|]. split; [done|]. by left.
      * rewrite IH. apply decide_ext. rewrite elem_of_cons. set_solver.
Qed.

Lemma write_feed_run out add feed s :
  write_feed out add tt feed s = f_write out (feed_text add feed) s.
Proof.
  unfold write_feed, feed_text.
  destruct (add && negb (title feed =? "") && negb (Py.startswith (url feed) "#"));
    destruct (add && negb (Py.startswith (url feed) "#"));
    run_monad; unfold f_write; simpl;
    rewrite ?lookup_insert_eq, ?insert_insert_eq; simpl;
    rewrite ?str_app_nil_r, ?str_app_assoc; reflexivity.
Qed.

Lemma write_loop_run out add feeds s old :
  disk s !! out = Some old →
  for_each feeds (write_feed out add) tt s =
  (Ret tt, {| stdout := stdout s;
              disk := <[out := old +:+ output_text add feeds]> (disk s) |}).
Proof.
  revert s old. induction feeds as [|f fs IH]; intros s old Hold; simpl.
  - unfold ret. rewrite str_app_nil_r, insert_id by done. by destruct s.
  - unfold mbind, M_bind, bind. rewrite write_feed_run.
    unfold f_write at 1. rewrite Hold. simpl.
    erewrite IH by (simpl; apply lookup_insert_eq). simpl.
    by rewrite insert_insert_eq, str_app_assoc.
Qed.

Lemma write_output_run w out add feeds s :
  write_output w out add feeds s =
  match fs_open_w w out with
  | Some e => (Raise e, s)
  | None => (Ret tt, {| stdout := stdout s;
                        disk := <[out := output_text add feeds]> (disk s) |})
  end.
Proof.
  unfold write_output, mbind, M_bind, bind, open_w.
  destruct (fs_open_w w out) as [e|]; [done|].
  erewrite write_loop_run by (simpl; apply lookup_insert_eq). simpl.
  by rewrite insert_insert_eq.
Qed.

Lemma resolve_pattern_run w files pat s :
  resolve_pattern w files pat s = ((resolve_pattern w files pat s).1, s).
Proof.
  unfold resolve_pattern.
  destruct (Py.contains_char "*" pat || Py.contains_char "?" pat); [|done].
  unfold mbind, M_bind, bind, lift. by destruct (fs_glob w pat).
Qed.

Lemma resolve_pattern_indep w files pat s s' :
  (resolve_pattern w files pat s).1 = (resolve_pattern w files pat s').1.
Proof.
  unfold resolve_pattern.
  destruct (Py.contains_char "*" pat || Py.contains_char "?" pat); [|done].
  unfold mbind, M_bind, bind, lift. by destruct (fs_glob w pat).
Qed.

Lemma resolve_loop_run w pats files s s0 :
  for_each pats (resolve_pattern w) files s =
  ((for_each pats (resolve_pattern w) files s0).1, s).
Proof.
  revert files. induction pats as [|pat pats IH]; intros files; simpl; [done|].
  unfold mbind, M_bind, bind.
  rewrite (resolve_pattern_run w files pat s), (resolve_pattern_run w files pat s0).
  rewrite (resolve_pattern_indep w files pat s s0).
  destruct (resolve_pattern w files pat s0).1 as [files'|e]; [apply IH | done].
Qed.

Lemma resolve_run w pats s : resolve_inputs w pats s = (resolved w pats, s).
Proof. apply resolve_loop_run. Qed.

Lemma process_run w pats out add s :
  process_opml_files w pats out add s =
  match resolved w pats with
  | Raise e => (Raise e, s)
  | Ret files =>
      let seen := urls_of (all_extracted w files) in
      let log := flat_map (file_log w) files in
      match fs_open_w w out with
      | Some e => (Raise e, {| stdout := stdout s ++ log; disk := disk s |})
      | None =>
          (Ret (size seen),
           {| stdout := stdout s ++ log ++ [converted_line (size seen) out];
              disk := <[out := output_text add (blocks w add ∅ files)]> (disk s) |})
      end
  end.
Proof.
  unfold process_opml_files, mbind, M_bind, bind.
  rewrite resolve_run. destruct (resolved w pats) as [files|e]; [|done].
  rewrite aggregate_run, write_output_run. simpl.
  destruct (fs_open_w w out) as [e|]; [done|].
  unfold print, mret, M_ret, ret, converted_line. simpl. by rewrite <- app_assoc.
Qed.

Lemma usage_run s :
  for_each usage (λ _ line, print line) tt s =
  (Ret tt, {| stdout := stdout s ++ usage; disk := disk s |}).
Proof. unfold usage. simpl. unfold mbind, M_bind, bind, print, ret. simpl.
  by rewrite <- !app_assoc. Qed.

Lemma main_run w argv s :
  main w argv s =
  if (length argv <? 2)%nat then
    (Ret 1%nat, {| stdout := stdout s ++ usage; disk := disk s |})
  else
    let cfg := parse_args argv in
    match resolved w (input_patterns cfg) with
    | Raise e =>
        (Ret 1%nat,
         {| stdout := stdout s ++ [Py.LF +:+ "✗ Error: " +:+ exn_msg e];
            disk := disk s |})
    | Ret files =>
        let seen := urls_of (all_extracted w files) in
        let log := flat_map (file_log w) files in
        match fs_open_w w (output_path cfg) with
        | Some e =>
            (Ret 1%nat,
             {| stdout := stdout s ++ log ++ [Py.LF +:+ "✗ Error: " +:+ exn_msg e];
                disk := disk s |})
        | None =>
            (Ret 0%nat,
             {| stdout := stdout s ++ log
                  ++ [converted_line (size seen) (output_path cfg);
                      Py.LF +:+ "✓ Done! Ready to use with rssfeedz.";
                      "  Copy " +:+ output_path cfg +:+ " to ~/rssfeedz/feedlist.txt"];
                disk := <[output_path cfg :=
                            output_text (add_comments cfg)
                              (blocks w (add_comments cfg) ∅ files)]> (disk s) |})
        end
    end.
Proof.
  unfold main. destruct (length argv <? 2)%nat.
  - unfold mbind, M_bind, bind. by rewrite usage_run.
  - unfold try_except, mbind, M_bind, bind. rewrite process_run. simpl.
    destruct (resolved w _) as [files|e]; [|done].
    destruct (fs_open_w w _) as [e|]; simpl.
    + unfold print, mret, M_ret, ret. simpl. by rewrite <- app_assoc.
    + unfold print, mret, M_ret, ret. simpl. by rewrite <- !app_assoc.
Qed.

(** ** The claims *)



Lemma blocks_sublist w add seen files :
  keep_fresh seen (all_extracted w files) `sublist_of` blocks w add seen files.
Proof.
  revert seen. induction files as [|p ps IH]; intros seen; [done|].
  simpl. rewrite keep_fresh_app.
  apply sublist_inserts_l, sublist_app; [done | apply IH].
Qed.


Lemma keep_fresh_all_seen seen l :
  Forall (λ r, url r ∈ seen) l → keep_fresh seen l = [].
Proof.
  induction 1 as [|r l Hr _ IH]; [done|]. simpl. by rewrite decide_True.
Qed.

Lemma split_no_sep sep s c :
  c ∈ Py.split sep s → Py.contains_char sep c = false.
Proof.
  revert c. induction s as [|a s IH]; intros c; simpl.
  - by intros ->%list_elem_of_singleton.
  - destruct (Ascii.eqb a sep) eqn:Ha.
    + intros [->|Hc]%elem_of_cons; [done | by apply IH].
    + destruct (Py.split sep s) as [|h t] eqn:Hs.
      * intros ->%list_elem_of_singleton. simpl. by rewrite Ha.
      * intros [->|Hc]%elem_of_cons.
        -- simpl. rewrite Ha. apply IH. by left.
        -- apply IH. by right.
Qed.

Lemma last_elem_of {A} (l : list A) d : List.last l d = d ∨ List.last l d ∈ l.
Proof.
  induction l as [|x l IH]; [by left|]. simpl.
  destruct l as [|y l]; [right; by left|].
  destruct IH as [->|IH]; [by left | right; by right].
Qed.

Lemma name_no_sep p : Py.contains_char "/" (Pathlib.name p) = false.
Proof.
  unfold Pathlib.name. destruct (last_elem_of (Pathlib.parts p) "") as [->|Hin]; [done|].
  unfold Pathlib.parts in Hin. apply list_elem_of_filter in Hin as [_ Hin].
  by apply split_no_sep in Hin.
Qed.

Lemma or_str_spec v d :
  Py.or_str v d =
  match v with
  | Some x => if decide (x = "") then d else x
  | None => d
  end.
Proof.
  destruct v as [x|]; simpl; [|done].
  destruct (String.eqb_spec x ""); case_decide; congruence.
Qed.

Lemma outline_feed_spec e :
  (if String.eqb (tag e) "outline" then outline_feed e else [])
  = option_list (spec_record e).
Proof.
  unfold spec_record, outline_feed, spec_title, nonempty_attr, get.
  rewrite !or_str_spec.
  destruct (String.eqb_spec (tag e) "outline") as [Ht|Ht]; case_decide; try done.
  destruct (attrib e !! "xmlUrl") as [u|]; simpl; [|done].
  destruct (String.eqb_spec u "") as [Hu|Hu]; case_decide; try done. simpl.
  do 2 f_equal.
  destruct (attrib e !! "title") as [t|]; destruct (attrib e !! "text") as [x|];
    repeat case_decide; congruence.
Qed.

Lemma extract_feeds_nodes e :
  extract_feeds e = omap spec_record (nodes e).
Proof.
  unfold extract_feeds. induction e as [tg a cs IH] using Element_ind'.
  simpl. rewrite flat_map_app.
  assert (Hcs : flat_map outline_feed (flat_map (iter "outline") cs)
                = omap spec_record (flat_map nodes cs)).
  { induction IH as [|c cs Hc _ IHcs]; [done|].
    simpl. by rewrite flat_map_app, omap_app, Hc, IHcs. }
  rewrite Hcs. pose proof (outline_feed_spec (Elem tg a cs)) as Hn. simpl in Hn.
  destruct (String.eqb tg "outline"); simpl; rewrite ?app_nil_r.
  all: destruct (spec_record (Elem tg a cs)); simpl in *.
  all: first [by rewrite Hn | done].
Qed.

Lemma nodes_self e : e ∈ nodes e.
Proof. destruct e. simpl. by left. Qed.

Lemma nodes_descendant n e : n ∈ nodes e ↔ descendant n e.
Proof.
  split.
  - induction e as [tg a cs IH] using Element_ind'. simpl.
    intros [->|Hin]%elem_of_cons; [constructor|].
    apply list_elem_of_In, in_flat_map in Hin as (c & Hc & Hn).
    apply list_elem_of_In in Hc, Hn.
    apply (desc_child n (Elem tg a cs) c); [done|].
    rewrite Forall_forall in IH. by apply IH.
  - induction 1 as [|e c Hc _ IH]; [apply nodes_self|].
    destruct e as [tg a cs]. simpl in *. right.
    apply list_elem_of_In, in_flat_map. exists c.
    split; by apply list_elem_of_In.
Qed.

Lemma omap_flat_map {A B C} (f : B → option C) (g : A → list B) (l : list A) :
  omap f (flat_map g l) = flat_map (λ x, omap f (g x)) l.
Proof. induction l as [|x l IH]; [done|]. simpl. by rewrite omap_app, IH. Qed.

Lemma extract_feeds_children tg a cs :
  extract_feeds (Elem tg a cs) =
  option_list (spec_record (Elem tg a cs)) ++ flat_map extract_feeds cs.
Proof.
  rewrite extract_feeds_nodes. simpl. rewrite omap_flat_map.
  rewrite (flat_map_ext _ extract_feeds) by (intros c; by rewrite extract_feeds_nodes).
  by destruct (spec_record (Elem tg a cs)).
Qed.

(** C3.  For a document that parses, the extractor returns, without printing,
    one record per node of the document, in document order and at any
    depth, that is tagged [outline] and has a non-empty [xmlUrl]: its url
    is that attribute, its title the [title] attribute if present and not
    empty, else the [text] attribute if present and not empty, else
    empty.  Every node contributes its own record, if it has one, followed
    by the records of its children: a node without record is still walked
    through. *)
Theorem extractor_follows_document_order (w : World) (p : Pathlib.Path)
    (root : Element) (s : Sys) :
  et_parse w p = Ret root →
  extract_feeds_from_opml w p s = (Ret (omap spec_record (nodes root)), s)
  ∧ (∀ n, n ∈ nodes root ↔ descendant n root)
  ∧ (∀ tg a cs,
       extract_feeds (Elem tg a cs) =
       option_list (spec_record (Elem tg a cs)) ++ flat_map extract_feeds cs).
Proof.
  intros Hp. split; [|split; [intros n; apply nodes_descendant|]].
  - rewrite extract_run. unfold feeds_of, extract_log. rewrite Hp.
    by rewrite extract_feeds_nodes, sys_eta.
  - apply extract_feeds_children.
Qed.

(** C3 at [tech.opml]: a folder and its two feeds. *)
Lemma extractor_follows_document_order_witness :
  et_parse Sample.world "tech.opml" = Ret Sample.tech_doc
  ∧ extract_feeds_from_opml Sample.world "tech.opml" Sample.start
    = (Ret (omap spec_record (nodes Sample.tech_doc)), Sample.start)
  ∧ omap spec_record (nodes Sample.tech_doc)
    = [ {| url := "https://a.com/rss"; title := "Blog" |};
        {| url := "https://b.com/rss"; title := "B2" |} ].
Proof.
  split; [reflexivity|]. split; [|vm_compute; reflexivity].
  apply (extractor_follows_document_order Sample.world "tech.opml" Sample.tech_doc
           Sample.start).
  reflexivity.
Defined.

Lemma blocks_skip w add seen p files :
  extracted w p = [] → blocks w add seen (p :: files) = blocks w add seen files.
Proof.
  intros Hp. simpl. rewrite Hp. unfold markers_for. rewrite andb_false_r. simpl.
  unfold urls_of. simpl. by rewrite (right_id_L ∅ (∪)).
Qed.

Lemma extracted_parse_error w p e : et_parse w p = Raise e → extracted w p = [].
Proof.
  intros Hp. unfold extracted, feeds_of. rewrite Hp. by destruct (fs_exists w p).
Qed.

Lemma blocks_nil w add seen files :
  Forall (λ p, extracted w p = []) files → blocks w add seen files = [].
Proof.
  intros H. revert seen. induction H as [|p ps Hp _ IH]; intros seen; [done|].
  rewrite blocks_skip by done. apply IH.
Qed.

Lemma yields_nothing_extracted w p : yields_nothing w p → extracted w p = [].
Proof.
  unfold extracted, feeds_of.
  intros [->|[[e ->]|(root & -> & Hroot)]]; [done| |]; by destruct (fs_exists w p).
Qed.

Lemma output_text_no_comments l : output_text false l = url_lines l.
Proof.
  induction l as [|r l IH]; [done|]. simpl. rewrite IH.
  unfold feed_text. cbn [andb]. rewrite str_app_nil_r.
  change ("" +:+ (url r +:+ Py.LF)) with (url r +:+ Py.LF).
  by rewrite str_app_assoc.
Qed.

Lemma lines_from_line cur u rest :
  Py.contains_char "010" u = false →
  lines_from cur (u +:+ Py.LF +:+ rest) = (cur +:+ u) :: lines_from "" rest.
Proof.
  revert cur. induction u as [|a u IH]; intros cur Hu.
  - simpl. by rewrite str_app_nil_r.
  - simpl in Hu. destruct (Ascii.eqb a "010") eqn:Ha; [done|].
    rewrite str_app_cons. simpl. rewrite Ha, IH by done.
    by rewrite str_app_assoc.
Qed.

Lemma lines_url_lines l :
  Forall (λ r, Py.contains_char "010" (url r) = false) l →
  lines (url_lines l) = url <$> l.
Proof.
  unfold lines. induction 1 as [|r l Hr _ IH]; [done|].
  simpl. by rewrite lines_from_line, IH.
Qed.

Lemma outline_feed_url e r : r ∈ outline_feed e → url r ≠ "".
Proof.
  unfold outline_feed, get. destruct (attrib e !! "xmlUrl") as [u|]; simpl.
  - destruct (String.eqb_spec u ""); simpl; [by intros ?%elem_of_nil|].
    by intros ->%list_elem_of_singleton.
  - by intros ?%elem_of_nil.
Qed.

Lemma extracted_url w p r : r ∈ extracted w p → url r ≠ "".
Proof.
  unfold extracted, feeds_of.
  destruct (fs_exists w p); [|by intros ?%elem_of_nil].
  destruct (et_parse w p) as [root|e]; [|by intros ?%elem_of_nil].
  unfold extract_feeds. intros (e & _ & Hr)%list_elem_of_In%in_flat_map.
  eapply outline_feed_url. by apply list_elem_of_In.
Qed.

Lemma all_extracted_url w files r : r ∈ all_extracted w files → url r ≠ "".
Proof.
  intros (p & _ & Hr)%list_elem_of_In%in_flat_map.
  eapply extracted_url. by apply list_elem_of_In.
Qed.

Lemma first_seen_elem l r : r ∈ first_seen l → r ∈ l.
Proof. rewrite <- keep_fresh_first_seen. by intros [? _]%keep_fresh_elem. Qed.

Lemma parse_args_no_comments argv :
  "--no-comments" ∈ argv → add_comments (parse_args argv) = false.
Proof. intros H. unfold parse_args. simpl. by rewrite bool_decide_eq_true_2. Qed.

(** C7, amended.  With [--no-comments], a run whose patterns expand and whose
    output path can be opened exits with 0 and writes exactly the
    first-seen urls of the extracted feeds, each followed by a line feed,
    in extraction order: nothing is added.  When no extracted url starts
    with [#] or holds a line feed, the lines of the file are these urls,
    none starts with [#] and none is blank. *)
Theorem no_comments_output_is_url_lines (w : World) (argv : list string)
    (files : list Pathlib.Path) (s : Sys) :
  "--no-comments" ∈ argv →
  (2 ≤ length argv)%nat →
  resolved w (input_patterns (parse_args argv)) = Ret files →
  fs_open_w w (output_path (parse_args argv)) = None →
  let urls := url <$> first_seen (all_extracted w files) in
  let text := foldr (λ u rest, u +:+ Py.LF +:+ rest) "" urls in
  (main w argv s).1 = Ret 0
  ∧ disk (main w argv s).2 !! output_path (parse_args argv) = Some text
  ∧ (Forall (λ r, Py.startswith (url r) "#" = false
                  ∧ Py.contains_char "010" (url r) = false)
       (all_extracted w files) →
     lines text = urls
     ∧ Forall (λ line, Py.startswith line "#" = false ∧ line ≠ "") (lines text)).
Proof.
  intros Hflag Hlen Hres Hopen urls text.
  assert (Htext : text = url_lines (first_seen (all_extracted w files))).
  { subst text urls. generalize (first_seen (all_extracted w files)).
    induction l as [|r l IH]; [done|]. simpl. rewrite <- IH. reflexivity. }
  rewrite main_run.
  destruct (length argv <? 2)%nat eqn:Hlt; [apply Nat.ltb_lt in Hlt; lia|].
  cbv zeta. rewrite Hres, Hopen, parse_args_no_comments by done. simpl.
  split; [done|]. split.
  - rewrite lookup_insert_eq, blocks_no_comments, keep_fresh_first_seen.
    by rewrite output_text_no_comments, Htext.
  - intros Hall. rewrite Forall_forall in Hall.
    assert (Hlines : lines text = urls).
    { rewrite Htext. apply lines_url_lines, Forall_forall.
      intros r Hr%first_seen_elem. by apply Hall. }
    split; [done|]. rewrite Hlines. subst urls.
    apply Forall_fmap, Forall_forall. intros r Hr%first_seen_elem. simpl.
    split; [by apply Hall | by eapply all_extracted_url].
Qed.

(** C7, amended, at a run over the two files the pattern matches. *)
Lemma no_comments_output_is_url_lines_witness :
  (main Sample.world ["opml2txt.py"; "--no-comments"; "*.opml"; "out.txt"]
     Sample.start).1 = Ret 0
  ∧ disk (main Sample.world ["opml2txt.py"; "--no-comments"; "*.opml"; "out.txt"]
            Sample.start).2 !! "out.txt"
    = Some ("https://a.com/rss" +:+ Py.LF +:+ "https://b.com/rss" +:+ Py.LF).
Proof.
  destruct (no_comments_output_is_url_lines Sample.world
              ["opml2txt.py"; "--no-comments"; "*.opml"; "out.txt"]
              ["tech.opml"; "news.opml"] Sample.start) as (Hexit & Hdisk & _).
  - apply list_elem_of_In. simpl. tauto.
  - simpl. lia.
  - reflexivity.
  - reflexivity.
  - split; [exact Hexit | exact Hdisk].
Defined.

(** C7, as stated, fails: with [--no-comments] a feed whose url is [#note]
    gives an output file whose only line starts with [#]. *)
Lemma no_comments_hash_line :
  "--no-comments" ∈ ["opml2txt.py"; "--no-comments"; "hash.opml"; "out.txt"]
  ∧ (main Sample.world ["opml2txt.py"; "--no-comments"; "hash.opml"; "out.txt"]
       Sample.start).1 = Ret 0
  ∧ disk (main Sample.world ["opml2txt.py"; "--no-comments"; "hash.opml"; "out.txt"]
            Sample.start).2 !! "out.txt" = Some ("#note" +:+ Py.LF)
  ∧ lines ("#note" +:+ Py.LF) = ["#note"]
  ∧ Py.startswith "#note" "#" = true.
Proof.
  split; [apply list_elem_of_In; simpl; tauto|].
  repeat split; vm_compute; reflexivity.
Qed.




Lemma size_keep_fresh seen l :
  size (seen ∪ urls_of l) = size seen + length (keep_fresh seen l).
Proof.
  revert seen. induction l as [|f fs IH]; intros seen; simpl.
  - unfold urls_of. simpl. rewrite (right_id_L ∅ (∪)). lia.
  - replace (seen ∪ urls_of (f :: fs)) with ((seen ∪ {[ url f ]}) ∪ urls_of fs)
      by (unfold urls_of; simpl; set_solver).
    destruct (decide (url f ∈ seen)) as [Hin|Hnin].
    + replace (seen ∪ {[ url f ]}) with seen by set_solver. apply IH.
    + rewrite IH, size_union, size_singleton by set_solver. simpl. lia.
Qed.

Lemma size_urls_of l : size (urls_of l) = length (first_seen l).
Proof.
  rewrite <- keep_fresh_first_seen.
  rewrite <- (left_id_L ∅ (∪) (urls_of l)), size_keep_fresh, size_empty. done.
Qed.

(** C10.  An extracted record whose url starts with [#] is treated by the
    aggregator like any other: its url ends in [seen_urls] and counts in
    the number of unique urls, a later record with the same url is
    dropped, and it is among the first occurrences exactly once.  The
    writer, even with comments on, writes for it its url and a line feed
    only: no title line before, no blank line after. *)
Theorem hash_url_feed_deduplicated_and_bare (w : World)
    (files : list Pathlib.Path) (r : FeedRecord) (s : Sys) :
  r ∈ all_extracted w files →
  Py.startswith (url r) "#" = true →
  (∃ all_feeds seen_urls s',
      aggregate w true files s = (Ret (all_feeds, seen_urls), s')
      ∧ url r ∈ seen_urls
      ∧ size seen_urls = length (first_seen (all_extracted w files))
      ∧ first_seen (all_extracted w files) `sublist_of` all_feeds
      ∧ length (filter (λ x, url x = url r) (first_seen (all_extracted w files))) = 1)
  ∧ (∀ st, url r ∈ st.2 → add_feed st r = st)
  ∧ (∀ st, url r ∉ st.2 → add_feed st r = (st.1 ++ [r], st.2 ∪ {[ url r ]}))
  ∧ (∀ out s0, write_feed out true tt r s0 = f_write out (url r +:+ Py.LF) s0).
Proof.
  intros Hin Hhash. split; [|split; [|split]].
  - eexists _, _, _. split; [apply aggregate_run|].
    split; [apply elem_of_urls_of; by apply list_elem_of_fmap_2|].
    split; [apply size_urls_of|].
    split; [rewrite <- keep_fresh_first_seen; apply blocks_sublist|].
    rewrite <- keep_fresh_first_seen, keep_fresh_count, decide_True; [done|].
    split; [set_solver | by apply list_elem_of_fmap_2].
  - intros st Hst. unfold add_feed. by rewrite decide_True.
  - intros st Hst. unfold add_feed. by rewrite decide_False.
  - intros out s0. rewrite write_feed_run. unfold feed_text. rewrite Hhash.
    rewrite !andb_false_r. by rewrite str_app_nil_r.
Qed.

(** C10 at [hash.opml] given twice. *)
Lemma hash_url_feed_deduplicated_and_bare_witness :
  (∃ all_feeds seen_urls s',
      aggregate Sample.world true ["hash.opml"; "hash.opml"] Sample.start
        = (Ret (all_feeds, seen_urls), s')
      ∧ "#note" ∈ seen_urls ∧ size seen_urls = 1)
  ∧ write_feed "out.txt" true tt {| url := "#note"; title := "Note" |} Sample.start
    = f_write "out.txt" ("#note" +:+ Py.LF) Sample.start.
Proof.
  destruct (hash_url_feed_deduplicated_and_bare Sample.world ["hash.opml"; "hash.opml"]
              {| url := "#note"; title := "Note" |} Sample.start)
    as ((all_feeds & seen & s' & Hrun & Hseen & Hsize & _) & _ & _ & Hwrite).
  - apply list_elem_of_In. vm_compute. tauto.
  - reflexivity.
  - split; [|apply Hwrite].
    exists all_feeds, seen, s'. split; [exact Hrun|]. split; [exact Hseen|].
    rewrite Hsize. vm_compute. reflexivity.
Defined.

(** C5.  The code at the input that breaks the claim: with [--no-comments]
    as the last of two arguments, it is taken as the output path, and the
    feed list goes to a file of that name while [feedlist.txt] is left as
    it was. *)
Lemma flag_last_taken_as_output :
  parse_args ["opml2txt.py"; "tech.opml"; "--no-comments"]
  = {| input_patterns := ["tech.opml"];
       output_path := "--no-comments";
       add_comments := false |}
  ∧ (main Sample.world ["opml2txt.py"; "tech.opml"; "--no-comments"] Sample.start).1
    = Ret 0
  ∧ disk (main Sample.world ["opml2txt.py"; "tech.opml"; "--no-comments"]
            Sample.start).2 !! "--no-comments"
    = Some ("https://a.com/rss" +:+ Py.LF +:+ "https://b.com/rss" +:+ Py.LF)
  ∧ disk (main Sample.world ["opml2txt.py"; "tech.opml"; "--no-comments"]
            Sample.start).2 !! "feedlist.txt"
    = Some "stale".
Proof. repeat split; vm_compute; reflexivity. Qed.

(** C6.  The code at the input that breaks the claim: with [--no-comments]
    as the only argument no input pattern is left, yet the run prints no
    usage text, empties [feedlist.txt] and exits with status 0. *)
Lemma flag_only_run_writes_output :
  parse_args ["opml2txt.py"; "--no-comments"]
  = {| input_patterns := []; output_path := "feedlist.txt"; add_comments := false |}
  ∧ main Sample.world ["opml2txt.py"; "--no-comments"] Sample.start
    = (Ret 0,
       {| stdout := [ converted_line 0 "feedlist.txt";
                      Py.LF +:+ "✓ Done! Ready to use with rssfeedz.";
                      "  Copy feedlist.txt to ~/rssfeedz/feedlist.txt" ];
          disk := <["feedlist.txt" := ""]> (disk Sample.start) |}).
Proof. split; [vm_compute; reflexivity|]. rewrite main_run. vm_compute. reflexivity. Qed.

(** ** Further properties of the argument handling and the file loop *)

Lemma elem_of_removelast {A} (l : list A) x : x ∈ removelast l → x ∈ l.
Proof.
  induction l as [|y l IH]; [done|]. simpl. destruct l as [|z l]; [by intros ?%elem_of_nil|].
  intros [->|Hin]%elem_of_cons; [by left | right; by apply IH].
Qed.

Lemma elem_of_tail {A} (l : list A) x : x ∈ tail l → x ∈ l.
Proof. destruct l; [done|]. simpl. by right. Qed.

(** X1.  Whatever the arguments, [--no-comments] is never among the input
    patterns, and comments are on exactly when it is not an argument. *)
Theorem flag_never_input_pattern (argv : list string) :
  Forall (λ f, f ≠ "--no-comments") (input_patterns (parse_args argv))
  ∧ add_comments (parse_args argv) = negb (bool_decide ("--no-comments" ∈ argv)).
Proof.
  split; [|done]. unfold parse_args. simpl.
  destruct (decide ("--no-comments" ∈ argv)) as [Hin|Hnin].
  - rewrite bool_decide_eq_true_2 by done. apply Forall_forall.
    by intros f [? _]%list_elem_of_filter.
  - rewrite bool_decide_eq_false_2 by done. apply Forall_forall.
    intros f Hf ->. apply Hnin.
    destruct (_ && _); [apply elem_of_removelast in Hf|]; by apply elem_of_tail.
Qed.

(** X2.  With no argument after the program name, the run prints the usage
    text, exits with status 1 and writes nothing. *)
Theorem usage_without_arguments (w : World) (argv : list string) (s : Sys) :
  (length argv < 2)%nat →
  main w argv s = (Ret 1, {| stdout := stdout s ++ usage; disk := disk s |}).
Proof.
  intros Hlen. rewrite main_run.
  by destruct (Nat.ltb_spec (length argv) 2); [|lia].
Qed.

(** X2 at the program name alone. *)
Lemma usage_without_arguments_witness :
  main Sample.world ["opml2txt.py"] Sample.start
  = (Ret 1, {| stdout := usage; disk := disk Sample.start |}).
Proof.
  apply (usage_without_arguments Sample.world ["opml2txt.py"] Sample.start).
  simpl. lia.
Defined.

(** ** The resolver, the errors, the format of the output *)

Lemma resolve_acc w pats acc s :
  (for_each pats (resolve_pattern w) acc s).1
  = outcome_app (Ret acc) (for_each pats (resolve_pattern w) [] s).1.
Proof.
  revert acc. induction pats as [|pat pats IH]; intros acc; simpl.
  - by rewrite app_nil_r.
  - unfold mbind, M_bind, bind.
    rewrite (resolve_pattern_run w acc pat s), (resolve_pattern_run w [] pat s).
    unfold resolve_pattern. destruct (_ || _).
    + run_monad. destruct (fs_glob w pat) as [ms|e]; simpl; [|done].
      rewrite (IH (acc ++ _)), (IH (Pathlib.mkPath <$> ms)). simpl.
      destruct (for_each pats (resolve_pattern w) [] s).1; simpl; [|done].
      by rewrite app_assoc.
    + run_monad. rewrite (IH (acc ++ _)), (IH [_]).
      destruct (for_each pats (resolve_pattern w) [] s).1; simpl; [|done].
      by rewrite <- app_assoc.
Qed.

Lemma resolved_cons w pat pats :
  resolved w (pat :: pats) = outcome_app (resolved w [pat]) (resolved w pats).
Proof.
  unfold resolved, resolve_inputs. simpl. unfold mbind, M_bind, bind.
  set (s0 := {| stdout := []; disk := ∅ |}).
  rewrite (resolve_pattern_run w [] pat s0).
  destruct (resolve_pattern w [] pat s0).1 as [a|e]; simpl; [|done].
  unfold ret. simpl. rewrite resolve_acc. simpl.
  by destruct (for_each pats (resolve_pattern w) [] s0).1.
Qed.

Lemma outcome_app_assoc {A} (a b c : outcome (list A)) :
  outcome_app (outcome_app a b) c = outcome_app a (outcome_app b c).
Proof. destruct a, b, c; simpl; try done. by rewrite app_assoc. Qed.

Lemma resolved_app (w : World) (l1 l2 : list string) :
  resolved w (l1 ++ l2) = outcome_app (resolved w l1) (resolved w l2).
Proof.
  induction l1 as [|pat l1 IH]; simpl.
  - change (resolved w []) with (@Ret (list Pathlib.Path) []).
    simpl. by destruct (resolved w l2).
  - by rewrite resolved_cons, IH, <- outcome_app_assoc, <- resolved_cons.
Qed.

Lemma resolved_single w pat :
  resolved w [pat] =
  if is_wildcard pat then
    match fs_glob w pat with
    | Ret ms => Ret (Pathlib.mkPath <$> ms)
    | Raise e => Raise e
    end
  else Ret [Pathlib.mkPath pat].
Proof.
  unfold resolved, resolve_inputs, is_wildcard. simpl. unfold resolve_pattern.
  destruct (_ || _); run_monad; [|done]. by destruct (fs_glob w pat).
Qed.

(** X4.  The resolver works pattern by pattern and keeps the order of the
    arguments: the paths of a list of patterns are those of its first part
    followed by those of the rest, and the first expansion that raises is
    the error of the whole.  A pattern with [*] or [?] gives its matches
    in the order reported, any other pattern the one path of its text,
    whether the file exists or not. *)
Theorem resolve_concatenates (w : World) (l1 l2 : list string) :
  resolved w (l1 ++ l2) = outcome_app (resolved w l1) (resolved w l2)
  ∧ ∀ pat,
      resolved w [pat] =
      if is_wildcard pat then
        match fs_glob w pat with
        | Ret ms => Ret (Pathlib.mkPath <$> ms)
        | Raise e => Raise e
        end
      else Ret [Pathlib.mkPath pat].
Proof. split; [apply resolved_app | apply resolved_single]. Qed.

(** X5.  Arguments without [*] and [?] are taken as literal paths, in order,
    each normalised as [Path] does; the file system is not consulted and
    nothing is printed or raised at this stage. *)
Theorem literal_paths_resolve_as_given (w : World) (pats : list string) :
  Forall (λ pat, is_wildcard pat = false) pats →
  resolved w pats = Ret (Pathlib.mkPath <$> pats)
  ∧ ∀ s, resolve_inputs w pats s = (Ret (Pathlib.mkPath <$> pats), s).
Proof.
  intros Hlit.
  assert (H : resolved w pats = Ret (Pathlib.mkPath <$> pats)).
  { induction Hlit as [|pat pats Hpat _ IH]; [done|].
    rewrite resolved_cons, resolved_single, Hpat, IH. done. }
  split; [done|]. intros s. by rewrite resolve_run, H.
Qed.

(** X6.  When the expansion of a wildcard pattern raises, the patterns before
    it having expanded, the run stops there: [main] prints the error
    line only, processes no file, writes nothing and exits with
    status 1. *)
Theorem glob_error_is_fatal (w : World) (argv l1 l2 : list string) (pat : string)
    (files1 : list Pathlib.Path) (e : Exn) (s : Sys) :
  (2 ≤ length argv)%nat →
  input_patterns (parse_args argv) = l1 ++ pat :: l2 →
  resolved w l1 = Ret files1 →
  is_wildcard pat = true →
  fs_glob w pat = Raise e →
  main w argv s
  = (Ret 1, {| stdout := stdout s ++ [error_line e]; disk := disk s |}).
Proof.
  intros Hlen Hpats Hl1 Hwild Hglob. rewrite main_run.
  destruct (Nat.ltb_spec (length argv) 2); [lia|]. cbv zeta.
  rewrite Hpats, resolved_app, Hl1, resolved_cons, resolved_single.
  by rewrite Hwild, Hglob.
Qed.

(** X7.  When the output path cannot be opened, every resolved file has
    already been processed and reported; [main] then prints the error
    line, leaves the disk as it was and exits with status 1. *)
Theorem open_error_is_fatal (w : World) (argv : list string)
    (files : list Pathlib.Path) (e : Exn) (s : Sys) :
  (2 ≤ length argv)%nat →
  resolved w (input_patterns (parse_args argv)) = Ret files →
  fs_open_w w (output_path (parse_args argv)) = Some e →
  main w argv s
  = (Ret 1, {| stdout := stdout s ++ flat_map (file_log w) files ++ [error_line e];
               disk := disk s |}).
Proof.
  intros Hlen Hres Hopen. rewrite main_run.
  destruct (Nat.ltb_spec (length argv) 2); [lia|]. cbv zeta.
  by rewrite Hres, Hopen.
Qed.

Lemma lines_line u rest :
  Py.contains_char "010" u = false →
  lines_from "" (u +:+ Py.LF +:+ rest) = u :: lines_from "" rest.
Proof. intros Hu. by rewrite lines_from_line. Qed.

Lemma lines_feed_text add r rest :
  one_line r →
  lines_from "" (feed_text add r +:+ rest) = record_lines add r ++ lines_from "" rest.
Proof.
  intros [Hu Ht]. unfold feed_text, record_lines.
  assert (Htitle : Py.contains_char "010" ("# " +:+ title r) = false) by done.
  destruct (add && negb (title r =? "") && negb (Py.startswith (url r) "#"));
    destruct (add && negb (Py.startswith (url r) "#")); simpl app;
    rewrite ?str_app_assoc; change ("" +:+ ?x) with x;
    rewrite <- ?(str_app_assoc "# " (title r));
    rewrite ?lines_line by done; reflexivity.
Qed.

Lemma lines_output_text add l :
  Forall one_line l →
  lines (output_text add l) = flat_map (record_lines add) l.
Proof.
  unfold lines. induction 1 as [|r l Hr _ IH]; [done|].
  simpl. by rewrite lines_feed_text, IH.
Qed.

Lemma startswith_hash t : Py.startswith ("# " +:+ t) "#" = true.
Proof. reflexivity. Qed.

Lemma feed_lines_record add r :
  url r ≠ "" →
  filter (λ line, is_feed_line line = true) (record_lines add r)
  = if is_comment r then [] else [url r].
Proof.
  intros Hurl. unfold record_lines, is_comment.
  assert (Hne : (url r =? "") = false) by by apply String.eqb_neq.
  destruct (Py.startswith (url r) "#") eqn:Hhash.
  - rewrite !andb_false_r. simpl.
    rewrite filter_cons, decide_False; [done|].
    unfold is_feed_line. by rewrite Hhash, andb_false_r.
  - rewrite !andb_true_r.
    assert (Hurl_line : is_feed_line (url r) = true).
    { unfold is_feed_line. by rewrite Hne, Hhash. }
    destruct add; simpl; [|by rewrite filter_cons, decide_True].
    destruct (negb (title r =? "")); simpl.
    + rewrite filter_cons, decide_False
        by (unfold is_feed_line; by rewrite startswith_hash, andb_false_r).
      rewrite filter_cons, decide_True by done.
      by rewrite filter_cons, decide_False.
    + rewrite filter_cons, decide_True by done.
      by rewrite filter_cons, decide_False.
Qed.

Lemma feed_lines_records add (l : list FeedRecord) :
  Forall (λ r, url r ≠ "") l →
  filter (λ line, is_feed_line line = true) (flat_map (record_lines add) l)
  = url <$> filter (λ r, is_comment r = false) l.
Proof.
  induction 1 as [|r l Hr _ IH]; [done|].
  simpl. rewrite filter_app, IH, feed_lines_record, filter_cons by done.
  destruct (is_comment r); [by rewrite decide_False | by rewrite decide_True].
Qed.

Lemma blocks_elem w add seen files r :
  r ∈ blocks w add seen files →
  r ∈ all_extracted w files ∨ ∃ p, p ∈ files ∧ r ∈ section_markers p.
Proof.
  revert seen. induction files as [|p ps IH]; intros seen; simpl.
  - by intros ?%elem_of_nil.
  - rewrite !elem_of_app. intros [Hm|[Hk|Hb]].
    + right. exists p. split; [by left|]. unfold markers_for in Hm.
      destruct (andb _ _); [done | by apply elem_of_nil in Hm].
    + left. left. by apply keep_fresh_elem in Hk as [? _].
    + destruct (IH _ Hb) as [?|(q & ? & ?)]; [left; by right|].
      right. exists q. split; [by right | done].
Qed.

Lemma marker_one_line p r :
  Py.contains_char "010" (Pathlib.name p) = false →
  r ∈ section_markers p → one_line r ∧ url r ≠ "".
Proof.
  intros Hp. unfold section_markers.
  rewrite !elem_of_cons, elem_of_nil. by intros [->|[->|[->|[]]]].
Qed.

(** X9.  Read as the feed list is meant to be read (blank lines and lines
    starting with [#] skipped), the output file of a successful run gives
    exactly the first-seen urls of the extracted feeds whose url does not
    start with [#], in extraction order, with comments on or off,
    provided no extracted url or title and no file name holds a line
    feed. *)
Theorem feed_lines_are_unique_urls (w : World) (argv : list string)
    (files : list Pathlib.Path) (s : Sys) :
  (2 ≤ length argv)%nat →
  resolved w (input_patterns (parse_args argv)) = Ret files →
  fs_open_w w (output_path (parse_args argv)) = None →
  Forall one_line (all_extracted w files) →
  Forall (λ p, Py.contains_char "010" (Pathlib.name p) = false) files →
  ∃ text,
    disk (main w argv s).2 !! output_path (parse_args argv) = Some text
    ∧ filter (λ line, is_feed_line line = true) (lines text)
      = url <$> filter (λ r, is_comment r = false) (first_seen (all_extracted w files)).
Proof.
  intros Hlen Hres Hopen Hfeeds Hnames. rewrite main_run.
  destruct (Nat.ltb_spec (length argv) 2); [lia|]. cbv zeta.
  rewrite Hres, Hopen. simpl. eexists. split; [apply lookup_insert_eq|].
  rewrite Forall_forall in Hfeeds. rewrite Forall_forall in Hnames.
  assert (Hall : ∀ r, r ∈ blocks w (add_comments (parse_args argv)) ∅ files →
                      one_line r ∧ url r ≠ "").
  { intros r [Hr|(p & Hp & Hr)]%blocks_elem.
    - split; [by apply Hfeeds | by eapply all_extracted_url].
    - eapply marker_one_line; [by apply Hnames | done]. }
  rewrite lines_output_text by (apply Forall_forall; intros r Hr; by apply Hall).
  rewrite feed_lines_records by (apply Forall_forall; intros r Hr; by apply Hall).
  by rewrite blocks_feeds, keep_fresh_first_seen.
Qed.

Lemma first_seen_length l : (length (first_seen l) ≤ length l)%nat.
Proof.
  rewrite <- keep_fresh_first_seen. generalize (∅ : gset string).
  induction l as [|f fs IH]; intros seen; simpl; [done|].
  destruct (decide (url f ∈ seen)); simpl;
    [specialize (IH seen) | specialize (IH (seen ∪ {[url f]}))]; lia.
Qed.

Lemma first_seen_nil l : first_seen l = [] ↔ l = [].
Proof.
  rewrite <- keep_fresh_first_seen. split; [|by intros ->].
  destruct l as [|f fs]; [done|]. simpl.
  by rewrite decide_False by set_solver.
Qed.

(** X10.  When the patterns expand and the output path opens,
    [process_opml_files] returns the number of distinct extracted urls:
    at most the number of extracted records, zero exactly when nothing
    was extracted, and the number its last printed line reports. *)
Theorem process_returns_unique_count (w : World) (input_files : list string)
    (output_file : string) (add : bool) (files : list Pathlib.Path) (s : Sys) :
  resolved w input_files = Ret files →
  fs_open_w w output_file = None →
  ∃ n s',
    process_opml_files w input_files output_file add s = (Ret n, s')
    ∧ n = length (first_seen (all_extracted w files))
    ∧ (n ≤ length (all_extracted w files))%nat
    ∧ (n = 0 ↔ all_extracted w files = [])
    ∧ List.last (stdout s') "" = converted_line n output_file.
Proof.
  intros Hres Hopen. rewrite process_run, Hres, Hopen. cbv zeta.
  eexists _, _. split; [done|]. simpl.
  rewrite size_urls_of. split; [done|]. split; [apply first_seen_length|]. split.
  - rewrite <- first_seen_nil. by destruct (first_seen (all_extracted w files)).
  - by rewrite !app_assoc, last_last.
Qed.

Lemma keep_fresh_subseteq seen l :
  urls_of l ⊆ seen → keep_fresh seen l = [].
Proof.
  intros Hsub. apply keep_fresh_all_seen, Forall_forall. intros r Hr.
  apply Hsub, elem_of_urls_of. by apply list_elem_of_fmap_2.
Qed.

Lemma all_extracted_subseteq w files more :
  Forall (λ p, p ∈ files) more →
  urls_of (all_extracted w more) ⊆ urls_of (all_extracted w files).
Proof.
  intros Hmore u (r & -> & Hr)%elem_of_urls_of%list_elem_of_fmap.
  apply list_elem_of_In, in_flat_map in Hr as (p & Hp & Hr).
  apply list_elem_of_In in Hp, Hr. rewrite Forall_forall in Hmore.
  apply elem_of_urls_of, list_elem_of_fmap_2, list_elem_of_In, in_flat_map.
  exists p. split; apply list_elem_of_In; [by apply Hmore | done].
Qed.

(** X11.  Files given again after a first pass add no feed: the seen urls
    and the feed records are those of the first pass, and without
    comments the aggregated list is unchanged. *)
Theorem repeated_files_add_no_feed (w : World) (add : bool)
    (files more : list Pathlib.Path) (s : Sys) :
  Forall (λ p, p ∈ files) more →
  ∃ all_feeds all_feeds' seen_urls s1 s2,
    aggregate w add files s = (Ret (all_feeds, seen_urls), s1)
    ∧ aggregate w add (files ++ more) s = (Ret (all_feeds', seen_urls), s2)
    ∧ filter (λ r, is_comment r = false) all_feeds'
      = filter (λ r, is_comment r = false) all_feeds
    ∧ (add = false → all_feeds' = all_feeds).
Proof.
  intros Hmore. pose proof (all_extracted_subseteq w files more Hmore) as Hsub.
  eexists _, _, _, _, _. split; [apply aggregate_run|]. split.
  - rewrite aggregate_run, all_extracted_app, urls_of_app.
    replace (urls_of (all_extracted w files) ∪ urls_of (all_extracted w more))
      with (urls_of (all_extracted w files)) by set_solver.
    reflexivity.
  - rewrite blocks_app, (left_id_L ∅ (∪)). split.
    + rewrite filter_app, (blocks_feeds w add _ more), keep_fresh_subseteq by done.
      by rewrite filter_nil, app_nil_r.
    + intros ->. by rewrite (blocks_no_comments w _ more), keep_fresh_subseteq,
        app_nil_r.
Qed.

Lemma substring_all s : String.substring 0 (String.length s) s = s.
Proof. induction s as [|a s IH]; [done|]. simpl. by rewrite IH. Qed.

Lemma substring_suffix pre p :
  String.substring (String.length pre) (String.length p) (pre +:+ p) = p.
Proof.
  induction pre as [|a pre IH]; [apply substring_all|].
  rewrite str_app_cons. simpl. apply IH.
Qed.

Lemma str_app_length s t :
  String.length (s +:+ t) = (String.length s + String.length t)%nat.
Proof. induction s as [|a s IH]; [done|]. rewrite str_app_cons. simpl. by rewrite IH. Qed.

Lemma substring_split s i :
  (i ≤ String.length s)%nat →
  s = String.substring 0 i s +:+ String.substring i (String.length s - i) s.
Proof.
  revert i. induction s as [|a s IH]; intros i Hi.
  - simpl in Hi. by replace i with 0%nat by lia.
  - destruct i as [|i]; simpl.
    + by rewrite substring_all.
    + rewrite str_app_cons. f_equal. apply IH. simpl in Hi. lia.
Qed.

Lemma endswith_spec s p :
  Py.endswith s p = true ↔ ∃ pre, s = pre +:+ p.
Proof.
  unfold Py.endswith. split.
  - destruct (Nat.leb_spec (String.length p) (String.length s)) as [Hle|]; [|done].
    intros Heq%String.eqb_eq.
    exists (String.substring 0 (String.length s - String.length p) s).
    pose proof (substring_split s (String.length s - String.length p)) as Hs.
    replace (String.length s - (String.length s - String.length p))%nat
      with (String.length p) in Hs by lia.
    rewrite Heq in Hs. apply Hs. lia.
  - intros [pre ->]. rewrite str_app_length.
    destruct (Nat.leb_spec (String.length p) (String.length pre + String.length p))
      as [_|?]; [|lia].
    replace (String.length pre + String.length p - String.length p)%nat
      with (String.length pre) by lia.
    rewrite substring_suffix. apply String.eqb_refl.
Qed.

(** X12.  Whatever the arguments, the output path does not end in [.opml]
    ([endswith] holding exactly for the texts with that suffix): the run
    never writes over a file so named. *)
Theorem output_path_never_opml (argv : list string) :
  Py.endswith (output_path (parse_args argv)) ".opml" = false
  ∧ ∀ pre, output_path (parse_args argv) ≠ pre +:+ ".opml".
Proof.
  assert (H : Py.endswith (output_path (parse_args argv)) ".opml" = false).
  { unfold parse_args. simpl.
    destruct (2 <? length argv)%nat; simpl; [|done].
    by destruct (Py.endswith (List.last argv "") ".opml") eqn:Hend. }
  split; [done|]. intros pre Hpre.
  assert (Py.endswith (output_path (parse_args argv)) ".opml" = true)
    by (apply endswith_spec; eauto).
  congruence.
Qed.

(** X13.  The extractor never raises and never touches the disk; every
    record it returns has a non-empty url, the [xmlUrl] of a node tagged
    [outline] of the parsed document. *)
Theorem extractor_never_raises (w : World) (p : Pathlib.Path) (s : Sys) :
  ∃ feeds s',
    extract_feeds_from_opml w p s = (Ret feeds, s')
    ∧ disk s' = disk s
    ∧ stdout s `prefix_of` stdout s'
    ∧ Forall (λ r, url r ≠ "") feeds
    ∧ Forall (λ r, ∃ n root, et_parse w p = Ret root ∧ descendant n root
                             ∧ tag n = "outline"
                             ∧ attrib n !! "xmlUrl" = Some (url r)) feeds.
Proof.
  eexists _, _. split; [apply extract_run|]. simpl.
  split; [done|]. split; [by apply prefix_app_r|].
  unfold feeds_of. destruct (et_parse w p) as [root|e]; [|by split].
  split; apply Forall_forall; intros r Hr.
  - unfold extract_feeds in Hr.
    apply list_elem_of_In, in_flat_map in Hr as (n & _ & Hr).
    eapply outline_feed_url. by apply list_elem_of_In.
  - rewrite extract_feeds_nodes in Hr.
    apply list_elem_of_omap in Hr as (n & Hn & Hrec).
    exists n, root. split; [done|]. split; [by apply nodes_descendant|].
    unfold spec_record, nonempty_attr in Hrec.
    destruct (decide (tag n = "outline")); [|done]. split; [done|].
    destruct (attrib n !! "xmlUrl") as [u|]; [|done].
    destruct (decide (u = "")); [done|]. by injection Hrec as <-.
Qed.

Lemma blocks_length w add seen files :
  length (blocks w add seen files)
  = (length (keep_fresh seen (all_extracted w files))
     + if add then 3 * length (annotated w files) else 0)%nat.
Proof.
  revert seen. induction files as [|p ps IH]; intros seen; simpl.
  - by destruct add.
  - rewrite keep_fresh_app, !length_app, IH. unfold annotated, markers_for.
    rewrite filter_cons. destruct (decide (extracted w p ≠ [])) as [Hne|Heq].
    + rewrite bool_decide_eq_false_2 by done. destruct add; simpl; lia.
    + rewrite bool_decide_eq_true_2 by (by destruct (decide (extracted w p = []))).
      rewrite andb_false_r. destruct add; simpl; lia.
Qed.

(** X14.  The aggregated list holds one record per distinct extracted url
    and, with comments on, three more per file that yielded at least
    one record; nothing else. *)
Theorem output_record_count (w : World) (add : bool)
    (files : list Pathlib.Path) (s : Sys) :
  ∃ all_feeds seen_urls s',
    aggregate w add files s = (Ret (all_feeds, seen_urls), s')
    ∧ length all_feeds
      = (size seen_urls + if add then 3 * length (annotated w files) else 0)%nat
    ∧ seen_urls = urls_of (all_extracted w files)
    ∧ (length (annotated w files) ≤ length files)%nat.
Proof.
  eexists _, _, _. split; [apply aggregate_run|].
  rewrite blocks_length, keep_fresh_first_seen, size_urls_of.
  split; [done|]. split; [done|]. apply length_filter.
Qed.

(** X15.  Processing further files only extends the result: the records
    aggregated from the first files stay, in place, as a prefix, the
    seen urls only grow, and so does what was printed. *)
Theorem aggregate_extends (w : World) (add : bool)
    (l1 l2 : list Pathlib.Path) (s : Sys) :
  ∃ feeds1 seen1 s1 feeds seen s',
    aggregate w add l1 s = (Ret (feeds1, seen1), s1)
    ∧ aggregate w add (l1 ++ l2) s = (Ret (feeds, seen), s')
    ∧ feeds1 `prefix_of` feeds
    ∧ seen1 ⊆ seen
    ∧ stdout s1 `prefix_of` stdout s'.
Proof.
  eexists _, _, _, _, _, _. split; [apply aggregate_run|].
  split; [apply aggregate_run|]. simpl.
  split; [rewrite blocks_app; by apply prefix_app_r|].
  split; [rewrite all_extracted_app, urls_of_app; set_solver|].
  rewrite flat_map_app, app_assoc. by apply prefix_app_r.
Qed.

(** X5 at an existing and a missing literal path. *)
Lemma literal_paths_resolve_as_given_witness :
  resolved Sample.world ["tech.opml"; "./feeds//missing.opml"]
  = Ret ["tech.opml"; "feeds/missing.opml"].
Proof.
  apply (literal_paths_resolve_as_given Sample.world
           ["tech.opml"; "./feeds//missing.opml"]).
  repeat constructor.
Defined.

(** X6 at a pattern that starts at the root, after a literal path. *)
Lemma glob_error_is_fatal_witness :
  main Faulty.world_glob ["opml2txt.py"; "tech.opml"; "/abs/*.opml"; "out.txt"]
    Sample.start
  = (Ret 1, {| stdout := [error_line Faulty.glob_error];
               disk := disk Sample.start |}).
Proof.
  apply (glob_error_is_fatal Faulty.world_glob
           ["opml2txt.py"; "tech.opml"; "/abs/*.opml"; "out.txt"]
           ["tech.opml"] [] "/abs/*.opml" ["tech.opml"] Faulty.glob_error
           Sample.start); try reflexivity.
  simpl. lia.
Defined.

(** X7 at an output path that cannot be opened. *)
Lemma open_error_is_fatal_witness :
  main Faulty.world_open ["opml2txt.py"; "tech.opml"; "/out.txt"] Sample.start
  = (Ret 1,
     {| stdout := flat_map (file_log Faulty.world_open) ["tech.opml"]
                  ++ [error_line Faulty.open_error];
        disk := disk Sample.start |}).
Proof.
  apply (open_error_is_fatal Faulty.world_open
           ["opml2txt.py"; "tech.opml"; "/out.txt"] ["tech.opml"]
           Faulty.open_error Sample.start); try reflexivity.
  simpl. lia.
Defined.

(** X9 at a run with comments on over the two sample files. *)
Lemma feed_lines_are_unique_urls_witness :
  ∃ text,
    disk (main Sample.world ["opml2txt.py"; "*.opml"] Sample.start).2
      !! "feedlist.txt" = Some text
    ∧ filter (λ line, is_feed_line line = true) (lines text)
      = ["https://a.com/rss"; "https://b.com/rss"].
Proof.
  destruct (feed_lines_are_unique_urls Sample.world ["opml2txt.py"; "*.opml"]
              ["tech.opml"; "news.opml"] Sample.start)
    as (text & Hdisk & Hlines).
  - simpl. lia.
  - reflexivity.
  - reflexivity.
  - repeat constructor.
  - repeat constructor.
  - exists text. split; [exact Hdisk|]. rewrite Hlines. vm_compute. reflexivity.
Defined.

(** X10 at the two sample files: three records, two distinct urls. *)
Lemma process_returns_unique_count_witness :
  ∃ s', process_opml_files Sample.world ["*.opml"] "out.txt" true Sample.start
        = (Ret 2, s').
Proof.
  destruct (process_returns_unique_count Sample.world ["*.opml"] "out.txt" true
              ["tech.opml"; "news.opml"] Sample.start)
    as (n & s' & Hrun & Hn & _); [reflexivity | reflexivity |].
  exists s'. rewrite Hrun, Hn. vm_compute. reflexivity.
Defined.

(** X11 at the two sample files given twice. *)
Lemma repeated_files_add_no_feed_witness :
  ∃ all_feeds seen_urls s1 s2,
    aggregate Sample.world false ["tech.opml"; "news.opml"] Sample.start
      = (Ret (all_feeds, seen_urls), s1)
    ∧ aggregate Sample.world false
        (["tech.opml"; "news.opml"] ++ ["news.opml"; "tech.opml"]) Sample.start
      = (Ret (all_feeds, seen_urls), s2).
Proof.
  destruct (repeated_files_add_no_feed Sample.world false ["tech.opml"; "news.opml"]
              ["news.opml"; "tech.opml"] Sample.start)
    as (af & af' & seen & s1 & s2 & H1 & H2 & _ & Heq).
  - repeat constructor; apply list_elem_of_In; simpl; tauto.
  - exists af, seen, s1, s2. split; [exact H1|]. rewrite <- (Heq eq_refl). exact H2.
Defined.

(** ** Paths, the step of one file, and runs whose checks can raise *)

Lemma split_nonempty sep s : Py.split sep s ≠ [].
Proof.
  destruct s as [|c s]; simpl; [done|].
  destruct (Ascii.eqb c sep); [done|]. by destruct (Py.split sep s).
Qed.

Lemma split_app_sep sep a b :
  Py.split sep (a +:+ String sep b) = Py.split sep a ++ Py.split sep b.
Proof.
  induction a as [|c a IH].
  - simpl. change ("" +:+ String sep b) with (String sep b). simpl.
    by rewrite Ascii.eqb_refl.
  - rewrite str_app_cons. simpl. destruct (Ascii.eqb c sep); [by rewrite IH|].
    rewrite IH. pose proof (split_nonempty sep a).
    by destruct (Py.split sep a).
Qed.

Lemma split_no_sep_id sep x :
  Py.contains_char sep x = false → Py.split sep x = [x].
Proof.
  induction x as [|c x IH]; [done|]. simpl.
  destruct (Ascii.eqb c sep); [done|]. intros Hx. by rewrite IH.
Qed.

Lemma parts_components s : Forall component (Pathlib.parts s).
Proof.
  apply Forall_forall. intros c [Hc Hin]%list_elem_of_filter.
  split; [done | by eapply split_no_sep].
Qed.

Lemma parts_concat ps :
  Forall component ps → Pathlib.parts (String.concat "/" ps) = ps.
Proof.
  unfold Pathlib.parts.
  induction 1 as [|c ps [Hc Hsep] Hps IH]; [done|].
  destruct ps as [|c' ps].
  - simpl. rewrite split_no_sep_id by done.
    by rewrite filter_cons, decide_True.
  - change (String.concat "/" (c :: c' :: ps))
      with (c +:+ String "/" (String.concat "/" (c' :: ps))).
    rewrite split_app_sep, filter_app, IH, split_no_sep_id by done.
    by rewrite filter_cons, decide_True.
Qed.

Lemma root_cases s :
  Pathlib.root s = "" ∨ Pathlib.root s = "/" ∨ Pathlib.root s = "//".
Proof.
  unfold Pathlib.root.
  destruct (Py.startswith s "///"); [auto|].
  destruct (Py.startswith s "//"); [auto|].
  destruct (Py.startswith s "/"); auto.
Qed.

Lemma parts_root_app r x :
  r = "" ∨ r = "/" ∨ r = "//" → Pathlib.parts (r +:+ x) = Pathlib.parts x.
Proof. by intros [-> | [-> | ->]]. Qed.

Lemma mkPath_unfold s :
  Pathlib.mkPath s =
  if decide (Pathlib.root s = "" ∧ Pathlib.parts s = []) then "."
  else Pathlib.root s +:+ String.concat "/" (Pathlib.parts s).
Proof.
  unfold Pathlib.mkPath.
  destruct (root_cases s) as [-> | [-> | ->]]; destruct (Pathlib.parts s);
    case_decide; naive_solver.
Qed.

Lemma parts_mkPath s : Pathlib.parts (Pathlib.mkPath s) = Pathlib.parts s.
Proof.
  rewrite mkPath_unfold. case_decide as H; [by destruct H as [_ ->]|].
  rewrite parts_root_app by apply root_cases.
  apply parts_concat, parts_components.
Qed.

Lemma concat_snoc ps c :
  String.concat "/" (ps ++ [c])
  = (if decide (ps = []) then "" else String.concat "/" ps +:+ "/") +:+ c.
Proof.
  induction ps as [|x ps IH].
  - rewrite decide_True by done. reflexivity.
  - rewrite (decide_False (P := x :: ps = [])) by done.
    destruct ps as [|y ps]; [simpl; by rewrite str_app_assoc|].
    change (String.concat "/" ((x :: y :: ps) ++ [c]))
      with (x +:+ "/" +:+ String.concat "/" ((y :: ps) ++ [c])).
    rewrite IH, decide_False by done.
    change (String.concat "/" (x :: y :: ps))
      with (x +:+ "/" +:+ String.concat "/" (y :: ps)).
    by rewrite !str_app_assoc.
Qed.

Lemma name_of_mkPath raw :
  Pathlib.name (Pathlib.mkPath raw) = List.last (Pathlib.parts raw) ""
  ∧ (Pathlib.parts raw ≠ [] →
     ∃ dir, Pathlib.mkPath raw = dir +:+ Pathlib.name (Pathlib.mkPath raw)
            ∧ (dir = "" ∨ ∃ d, dir = d +:+ "/")).
Proof.
  unfold Pathlib.name at 1. rewrite parts_mkPath. split; [done|].
  intros Hne. unfold Pathlib.name. rewrite parts_mkPath, mkPath_unfold.
  rewrite decide_False by (by intros [_ ?]).
  destruct (exists_last Hne) as (ps & c & ->).
  rewrite last_last, concat_snoc, <- str_app_assoc.
  eexists. split; [done|].
  case_decide.
  - rewrite str_app_nil_r. destruct (root_cases raw) as [-> | [-> | ->]].
    + by left.
    + right. by exists "".
    + right. by exists "/".
  - right. exists (Pathlib.root raw +:+ String.concat "/" ps).
    by rewrite str_app_assoc.
Qed.

Lemma for_each_app {A B} (l1 l2 : list B) (body : A → B → M A) a s :
  for_each (l1 ++ l2) body a s =
  match for_each l1 body a s with
  | (Ret a', s') => for_each l2 body a' s'
  | (Raise e, s') => (Raise e, s')
  end.
Proof.
  revert a s. induction l1 as [|x l1 IH]; intros a s; simpl; [done|].
  unfold mbind, M_bind, bind. destruct (body a x s) as [[a'|e] s']; [apply IH | done].
Qed.

Lemma aggregate_step w add before p s :
  aggregate w add (before ++ [p]) s =
  (Ret (add_file add p (extracted w p)
          (blocks w add ∅ before, urls_of (all_extracted w before))),
   {| stdout := (stdout s ++ flat_map (file_log w) before) ++ file_log w p;
      disk := disk s |}).
Proof.
  unfold aggregate. rewrite for_each_app. fold (aggregate w add before).
  rewrite aggregate_run. simpl. unfold mbind, M_bind, bind.
  rewrite process_file_run. simpl. unfold ret. done.
Qed.

Lemma aggregate_after w add before p after s :
  aggregate w add (before ++ p :: after) s =
  for_each after (process_file w add)
    (add_file add p (extracted w p)
       (blocks w add ∅ before, urls_of (all_extracted w before)))
    {| stdout := (stdout s ++ flat_map (file_log w) before) ++ file_log w p;
       disk := disk s |}.
Proof.
  replace (before ++ p :: after) with ((before ++ [p]) ++ after)
    by (by rewrite <- app_assoc).
  unfold aggregate at 1. rewrite for_each_app.
  fold (aggregate w add (before ++ [p])). by rewrite aggregate_step.
Qed.

Lemma add_file_spec add p feeds af seen :
  add_file add p feeds (af, seen) =
  (af ++ markers_for add p feeds ++ keep_fresh seen feeds, seen ∪ urls_of feeds).
Proof.
  unfold add_file, markers_for. simpl.
  destruct (add && negb (bool_decide (feeds = []))); simpl;
    rewrite fold_add_feed; by rewrite <- ?app_assoc.
Qed.

(** C2.  For a file the aggregator processes, whatever was processed before
    it: the step of the loop for that file appends, to what the earlier
    files left, exactly the header records followed by the records of
    the file not seen before, and adds the urls of the file to the seen
    ones; the later files start from that state, so nothing else is
    ever placed for the file.  The header records are the three records
    separator, [# Feeds from: name], separator when [add_comments] holds
    and the extractor returned at least one record (also when none of
    them is new), and none otherwise.  The name holds no separator; for
    a path made from a text it is the last component of that text, and
    the path is a directory part, empty or ending in the separator,
    followed by the name. *)
Theorem section_markers_per_file (w : World) (add : bool)
    (before after : list Pathlib.Path) (p : Pathlib.Path) (s : Sys) :
  fs_exists w p = true →
  ∃ feeds st0 s0 st1 s1,
    (∀ s', (extract_feeds_from_opml w p s').1 = Ret feeds) ∧
    aggregate w add before s = (Ret st0, s0) ∧
    aggregate w add (before ++ [p]) s = (Ret st1, s1) ∧
    aggregate w add (before ++ p :: after) s
      = for_each after (process_file w add) st1 s1 ∧
    let markers :=
      if add && negb (bool_decide (feeds = [])) then
        [ {| url := "# ========================================"; title := "" |};
          {| url := "# Feeds from: " +:+ Pathlib.name p; title := "" |};
          {| url := "# ========================================"; title := "" |} ]
      else [] in
    st1.1 = st0.1 ++ markers ++ keep_fresh st0.2 feeds ∧
    st1.2 = st0.2 ∪ urls_of feeds ∧
    (Forall (λ r, url r ∈ st0.2) feeds → keep_fresh st0.2 feeds = []) ∧
    Py.contains_char "/" (Pathlib.name p) = false ∧
    (∀ raw, p = Pathlib.mkPath raw →
       Pathlib.name p = List.last (Pathlib.parts raw) ""
       ∧ (Pathlib.parts raw ≠ [] →
          ∃ dir, p = dir +:+ Pathlib.name p ∧ (dir = "" ∨ ∃ d, dir = d +:+ "/"))).
Proof.
  intros Hex. exists (feeds_of w p). eexists _, _, _, _.
  split; [intros s1; by rewrite extract_run|].
  split; [apply aggregate_run|]. split; [apply aggregate_step|].
  split; [apply aggregate_after|]. cbv zeta.
  assert (Hp : extracted w p = feeds_of w p) by (unfold extracted; by rewrite Hex).
  rewrite Hp, add_file_spec. simpl.
  split; [done|]. split; [done|].
  split; [apply keep_fresh_all_seen|]. split; [apply name_no_sep|].
  intros raw ->. apply name_of_mkPath.
Qed.

(** C2 at [news.opml] after [tech.opml]: its only feed is a duplicate, the
    header is placed all the same. *)
Lemma section_markers_per_file_witness :
  ∃ st1 s1,
    aggregate Sample.world true (["tech.opml"] ++ ["news.opml"]) Sample.start
      = (Ret st1, s1)
    ∧ url <$> st1.1
      = [ "# ========================================";
          "# Feeds from: tech.opml";
          "# ========================================";
          "https://a.com/rss"; "https://b.com/rss";
          "# ========================================";
          "# Feeds from: news.opml";
          "# ========================================" ].
Proof.
  destruct (section_markers_per_file Sample.world true ["tech.opml"] []
              "news.opml" Sample.start eq_refl)
    as (feeds & st0 & s0 & st1 & s1 & Hfeeds & H0 & H1 & _ & Hst & _).
  exists st1, s1. split; [exact H1|]. rewrite Hst.
  specialize (Hfeeds Sample.start). injection Hfeeds as <-.
  injection H0 as <- _. vm_compute. reflexivity.
Defined.

Lemma strict_process_file_answer e add st p s :
  Strict.exists_error e p = None →
  Strict.process_file e add st p s = process_file (Strict.world e) add st p s.
Proof.
  intros Hp. unfold Strict.process_file, process_file, Strict.path_exists.
  unfold mbind at 1, M_bind at 1, bind at 1. by rewrite Hp.
Qed.

Lemma strict_process_file_raise e add st p x s :
  Strict.exists_error e p = Some x →
  Strict.process_file e add st p s = (Raise x, s).
Proof.
  intros Hp. unfold Strict.process_file, Strict.path_exists.
  unfold mbind at 1, M_bind at 1, bind at 1. by rewrite Hp.
Qed.

Lemma strict_files_answer e add files st s :
  Strict.checks_answer e files →
  for_each files (Strict.process_file e add) st s
  = for_each files (process_file (Strict.world e) add) st s.
Proof.
  intros H. revert st s. induction H as [|p ps Hp _ IH]; intros st s; [done|].
  simpl. unfold mbind, M_bind, bind. rewrite strict_process_file_answer by done.
  destruct (process_file _ _ _ _ _) as [[st'|x] s']; [apply IH | done].
Qed.

Lemma strict_aggregate_answer e add files s :
  Strict.checks_answer e files →
  Strict.aggregate e add files s = aggregate (Strict.world e) add files s.
Proof. apply strict_files_answer. Qed.

Lemma strict_aggregate_raise e add before p after x s :
  Strict.checks_answer e before →
  Strict.exists_error e p = Some x →
  Strict.aggregate e add (before ++ p :: after) s
  = (Raise x, {| stdout := stdout s ++ flat_map (file_log (Strict.world e)) before;
                 disk := disk s |}).
Proof.
  intros Hbefore Hp. unfold Strict.aggregate. rewrite for_each_app.
  rewrite strict_files_answer by done. fold (aggregate (Strict.world e) add before).
  rewrite aggregate_run. simpl. unfold mbind, M_bind, bind.
  by rewrite (strict_process_file_raise e add _ p x) by done.
Qed.

Lemma strict_main_answer e argv files s :
  resolved (Strict.world e) (input_patterns (parse_args argv)) = Ret files →
  Strict.checks_answer e files →
  Strict.main e argv s = main (Strict.world e) argv s.
Proof.
  intros Hres Hfiles. unfold Strict.main, main.
  destruct (length argv <? 2)%nat; [done|]. cbv zeta.
  unfold try_except, Strict.process_opml_files, process_opml_files.
  unfold mbind, M_bind, bind. rewrite resolve_run, Hres.
  by rewrite strict_aggregate_answer.
Qed.

Lemma strict_main_exists_raise e argv before p after x s :
  (2 ≤ length argv)%nat →
  resolved (Strict.world e) (input_patterns (parse_args argv))
    = Ret (before ++ p :: after) →
  Strict.checks_answer e before →
  Strict.exists_error e p = Some x →
  Strict.main e argv s
  = (Ret 1, {| stdout := stdout s ++ flat_map (file_log (Strict.world e)) before
                          ++ [error_line x];
               disk := disk s |}).
Proof.
  intros Hlen Hres Hbefore Hp. unfold Strict.main.
  destruct (Nat.ltb_spec (length argv) 2); [lia|]. cbv zeta.
  unfold try_except, Strict.process_opml_files.
  unfold mbind, M_bind, bind. rewrite resolve_run, Hres.
  rewrite (strict_aggregate_raise e _ before p after x) by done.
  unfold print, mret, M_ret, ret, error_line. simpl. by rewrite <- app_assoc.
Qed.

Lemma strict_checks_split e files :
  Strict.checks_answer e files
  ∨ ∃ l1 q l2 x, files = l1 ++ q :: l2 ∧ Strict.checks_answer e l1
                 ∧ Strict.exists_error e q = Some x.
Proof.
  induction files as [|p ps IH]; [left; constructor|].
  destruct (Strict.exists_error e p) as [x|] eqn:Hp.
  - right. exists [], p, ps, x. split; [done|]. split; [constructor | done].
  - destruct IH as [IH|(l1 & q & l2 & x & -> & Hl1 & Hq)].
    + left. by constructor.
    + right. exists (p :: l1), q, l2, x. split; [done|].
      split; [by constructor | done].
Qed.

Lemma strict_aggregate_disk e add files s :
  disk (Strict.aggregate e add files s).2 = disk s.
Proof.
  destruct (strict_checks_split e files) as [H|(l1 & q & l2 & x & -> & Hl1 & Hq)].
  - by rewrite strict_aggregate_answer, aggregate_run.
  - by rewrite (strict_aggregate_raise e add l1 q l2 x).
Qed.

Lemma checks_answer_app e l1 l2 :
  Strict.checks_answer e (l1 ++ l2)
  ↔ Strict.checks_answer e l1 ∧ Strict.checks_answer e l2.
Proof. apply Forall_app. Qed.

(** A path whose check answers and that hands no record to the loop is
    transparent: the loop ends as it does without it. *)
Lemma strict_aggregate_transparent e add before p after s :
  Strict.exists_error e p = None →
  extracted (Strict.world e) p = [] →
  (Strict.aggregate e add (before ++ p :: after) s).1
  = (Strict.aggregate e add (before ++ after) s).1.
Proof.
  intros Hp Hnil.
  destruct (strict_checks_split e before)
    as [Hb|(l1 & q & l2 & x & -> & Hl1 & Hq)].
  2: { rewrite <- !app_assoc. simpl.
       by rewrite !(strict_aggregate_raise e add l1 q _ x). }
  destruct (strict_checks_split e after)
    as [Ha|(l1 & q & l2 & x & -> & Hl1 & Hq)].
  - rewrite !strict_aggregate_answer, !aggregate_run.
    + simpl. rewrite !blocks_app, !all_extracted_app.
      rewrite (blocks_skip _ add _ p after) by done. simpl. by rewrite Hnil.
    + apply checks_answer_app. done.
    + apply checks_answer_app. split; [done|]. by constructor.
  - replace (before ++ p :: l1 ++ q :: l2) with ((before ++ p :: l1) ++ q :: l2)
      by (by rewrite <- app_assoc).
    rewrite (app_assoc before l1 (q :: l2)).
    rewrite !(strict_aggregate_raise e add _ q l2 x); [done|..]; try done.
    + apply checks_answer_app. done.
    + apply checks_answer_app. split; [done|]. by constructor.
Qed.

Lemma strict_aggregate_returns e add files s :
  Strict.checks_answer e files →
  ∃ st s', Strict.aggregate e add files s = (Ret st, s').
Proof. intros H. rewrite strict_aggregate_answer, aggregate_run by done. eauto. Qed.

(** C4, amended.  For a path whose existence check answers and whose parse
    raises, the extractor returns the empty list and raises nothing (it
    prints one line); in the loop over the files the path contributes
    nothing: the loop ends exactly as it does for the list without that
    path, with the same feeds and seen urls or the same error of another
    path, and when every other check answers it returns, going on with
    the files after the path.  The disk is not touched. *)
Theorem parse_failure_absorbed (e : Strict.Env) (add : bool) (p : Pathlib.Path)
    (x : Exn) (before after : list Pathlib.Path) (s : Sys) :
  Strict.exists_error e p = None →
  et_parse (Strict.world e) p = Raise x →
  extract_feeds_from_opml (Strict.world e) p s =
    (Ret [], {| stdout := stdout s ++ ["Error parsing " +:+ p +:+ ": " +:+ exn_msg x];
                disk := disk s |})
  ∧ (Strict.aggregate e add (before ++ p :: after) s).1
    = (Strict.aggregate e add (before ++ after) s).1
  ∧ disk (Strict.aggregate e add (before ++ p :: after) s).2 = disk s
  ∧ (Strict.checks_answer e (before ++ after) →
     ∃ st s1 s2,
       Strict.aggregate e add (before ++ p :: after) s = (Ret st, s1)
       ∧ Strict.aggregate e add (before ++ after) s = (Ret st, s2)).
Proof.
  intros Hp Hparse.
  pose proof (extracted_parse_error _ p x Hparse) as Hnil.
  pose proof (strict_aggregate_transparent e add before p after s Hp Hnil) as Heq.
  split; [|split; [done|split; [apply strict_aggregate_disk|]]].
  - rewrite extract_run. unfold feeds_of, extract_log. by rewrite Hparse.
  - intros Hall.
    destruct (strict_aggregate_returns e add (before ++ after) s Hall)
      as (st & s2 & Hrun).
    rewrite Hrun in Heq. simpl in Heq.
    destruct (Strict.aggregate e add (before ++ p :: after) s) as [o s1].
    simpl in Heq. subst o. eauto.
Qed.

(** X3.  A resolved path whose existence check answers that it does not
    exist is skipped with a warning: the state of the loop is unchanged,
    the loop ends exactly as it does without that path, and it returns
    when every other check answers. *)
Theorem missing_file_skipped (e : Strict.Env) (add : bool) (p : Pathlib.Path)
    (st : agg_state) (before after : list Pathlib.Path) (s : Sys) :
  Strict.exists_error e p = None →
  fs_exists (Strict.world e) p = false →
  Strict.process_file e add st p s
    = (Ret st,
       {| stdout := stdout s ++ ["Warning: " +:+ p +:+ " not found, skipping..."];
          disk := disk s |})
  ∧ (Strict.aggregate e add (before ++ p :: after) s).1
    = (Strict.aggregate e add (before ++ after) s).1
  ∧ (Strict.checks_answer e (before ++ after) →
     ∃ st' s1 s2,
       Strict.aggregate e add (before ++ p :: after) s = (Ret st', s1)
       ∧ Strict.aggregate e add (before ++ after) s = (Ret st', s2)).
Proof.
  intros Hp Hmiss.
  assert (Hnil : extracted (Strict.world e) p = [])
    by (unfold extracted; by rewrite Hmiss).
  pose proof (strict_aggregate_transparent e add before p after s Hp Hnil) as Heq.
  split; [|split; [done|]].
  - rewrite strict_process_file_answer, process_file_run, Hnil, add_file_nil by done.
    unfold file_log. by rewrite Hmiss.
  - intros Hall.
    destruct (strict_aggregate_returns e add (before ++ after) s Hall)
      as (st' & s2 & Hrun).
    rewrite Hrun in Heq. simpl in Heq.
    destruct (Strict.aggregate e add (before ++ p :: after) s) as [o s1].
    simpl in Heq. subst o. eauto.
Qed.

(** C9, amended.  A run that gets past the argument check, whose patterns
    expand, whose existence checks all answer and whose output path can
    be opened, and in which every resolved path is missing, fails to
    parse or holds no feed, aggregates no record, leaves an empty file
    at the output path, whatever was there before, and exits with
    status 0. *)
Theorem empty_run_truncates_output (e : Strict.Env) (argv : list string)
    (files : list Pathlib.Path) (s : Sys) :
  (2 ≤ length argv)%nat →
  resolved (Strict.world e) (input_patterns (parse_args argv)) = Ret files →
  Strict.checks_answer e files →
  fs_open_w (Strict.world e) (output_path (parse_args argv)) = None →
  Forall (yields_nothing (Strict.world e)) files →
  (Strict.main e argv s).1 = Ret 0
  ∧ disk (Strict.main e argv s).2 = <[output_path (parse_args argv) := ""]> (disk s)
  ∧ (∃ st s', Strict.aggregate e (add_comments (parse_args argv)) files s = (Ret st, s')
              ∧ st.1 = []).
Proof.
  intros Hlen Hres Hchecks Hopen Hfiles.
  assert (Hnil : Forall (λ p, extracted (Strict.world e) p = []) files).
  { eapply Forall_impl; [done|]. apply yields_nothing_extracted. }
  rewrite (strict_main_answer e argv files) by done. rewrite main_run.
  destruct (length argv <? 2)%nat eqn:Hlt; [apply Nat.ltb_lt in Hlt; lia|].
  cbv zeta. rewrite Hres, Hopen, blocks_nil by done. simpl.
  split; [done|]. split; [done|].
  rewrite strict_aggregate_answer by done.
  eexists _, _. split; [apply aggregate_run|]. simpl. by apply blocks_nil.
Qed.

Section SameResolved.
Context (w1 w2 : World) (files : list Pathlib.Path).
Hypothesis same_on_files :
  ∀ p, p ∈ files → fs_exists w1 p = fs_exists w2 p ∧ et_parse w1 p = et_parse w2 p.



End SameResolved.




(** C4, as stated, fails: a path below a directory that cannot be
    searched cannot be read, its existence check raises outside the
    extractor, and the run stops with status 1 before the next file,
    nothing written. *)
Lemma unreadable_path_is_fatal :
  Strict.exists_error Rerun.env_locked "locked/feeds.opml"
    = Some Rerun.permission_error
  ∧ Strict.main Rerun.env_locked
      ["opml2txt.py"; "locked/feeds.opml"; "tech.opml"; "out.txt"] Sample.start
    = (Ret 1, {| stdout := [error_line Rerun.permission_error];
                 disk := disk Sample.start |}).
Proof.
  split; [reflexivity|].
  apply (strict_main_exists_raise Rerun.env_locked _ [] "locked/feeds.opml"
           ["tech.opml"] Rerun.permission_error Sample.start).
  - simpl. lia.
  - reflexivity.
  - constructor.
  - reflexivity.
Qed.

(** C4, amended, at [bad.opml] between two files that parse. *)
Lemma parse_failure_absorbed_witness :
  ∃ st s1 s2,
    Strict.aggregate Rerun.env_checked true (["tech.opml"] ++ "bad.opml" :: ["news.opml"])
      Sample.start = (Ret st, s1)
    ∧ Strict.aggregate Rerun.env_checked true (["tech.opml"] ++ ["news.opml"])
        Sample.start = (Ret st, s2).
Proof.
  apply (parse_failure_absorbed Rerun.env_checked true "bad.opml" Sample.parse_error
           ["tech.opml"] ["news.opml"] Sample.start).
  - reflexivity.
  - reflexivity.
  - repeat constructor.
Defined.

(** X3 at a missing path between two files. *)
Lemma missing_file_skipped_witness :
  ∃ st s1 s2,
    Strict.aggregate Rerun.env_checked true
      (["tech.opml"] ++ "missing.opml" :: ["news.opml"]) Sample.start = (Ret st, s1)
    ∧ Strict.aggregate Rerun.env_checked true (["tech.opml"] ++ ["news.opml"])
        Sample.start = (Ret st, s2).
Proof.
  apply (missing_file_skipped Rerun.env_checked true "missing.opml" ([], ∅)
           ["tech.opml"] ["news.opml"] Sample.start).
  - reflexivity.
  - reflexivity.
  - repeat constructor.
Defined.

(** C9, as stated, fails: a run past the argument check whose only input
    is missing exits with status 1 and leaves the file at the output
    path as it was when that path cannot be opened. *)
Lemma empty_run_can_exit_1 :
  (2 ≤ length ["opml2txt.py"; "missing.opml"; "/out.txt"])%nat
  ∧ resolved Faulty.world_open
      (input_patterns (parse_args ["opml2txt.py"; "missing.opml"; "/out.txt"]))
    = Ret ["missing.opml"]
  ∧ fs_exists Faulty.world_open "missing.opml" = false
  ∧ Strict.main Rerun.env_read_only ["opml2txt.py"; "missing.opml"; "/out.txt"]
      {| stdout := []; disk := {[ "/out.txt" := "stale" ]} |}
    = (Ret 1,
       {| stdout := [ "Warning: missing.opml not found, skipping...";
                      error_line Faulty.open_error ];
          disk := {[ "/out.txt" := "stale" ]} |}).
Proof.
  split; [simpl; lia|]. split; [reflexivity|]. split; [reflexivity|].
  rewrite (strict_main_answer Rerun.env_read_only _ ["missing.opml"])
    by first [reflexivity | repeat constructor].
  rewrite main_run. reflexivity.
Qed.

(** C9, amended, at a run over a file that fails to parse and a missing one. *)
Lemma empty_run_truncates_output_witness :
  (Strict.main Rerun.env_checked
     ["opml2txt.py"; "bad.opml"; "missing.opml"; "out.txt"] Sample.start).1 = Ret 0
  ∧ disk (Strict.main Rerun.env_checked
            ["opml2txt.py"; "bad.opml"; "missing.opml"; "out.txt"] Sample.start).2
      !! "out.txt" = Some "".
Proof.
  destruct (empty_run_truncates_output Rerun.env_checked
              ["opml2txt.py"; "bad.opml"; "missing.opml"; "out.txt"]
              ["bad.opml"; "missing.opml"] Sample.start) as (Hexit & Hdisk & _).
  - simpl. lia.
  - reflexivity.
  - repeat constructor.
  - reflexivity.
  - constructor; [right; left; by exists Sample.parse_error|].
    constructor; [by left | constructor].
  - split; [exact Hexit|]. rewrite Hdisk. reflexivity.
Defined.
